(** * Piney: the ingestion script [pc_main_baseline.py]

    A shallow embedding of the script: Python values become Rocq values
    ([int] is [Z], a [str] is the [string] of the bytes of its UTF-8
    encoding, a list is a [list], [None] is the [None] of an [option]), the
    external collaborators (argparse, tiktoken, the file system, PyPDF2,
    python-docx, the OpenAI and Pinecone clients) become an inductive type or
    records of functions, and the effects of the script (printing, reading
    standard input, remote calls, exceptions, [sys.exit]) are threaded through
    a small state-and-error monad whose state holds the unread input lines and
    the trace of effects.

    The module binds [chunk_text], [process_file], [process_directory],
    [select_or_create_namespace] (and a few more) twice; Python keeps the last
    binding, so the second definitions are the ones that run.  The first ones
    are embedded under the suffix [_shadowed] where a property speaks of them.
    The running [chunk_text] calls [tokenize_text], a name the module binds
    nowhere. *)

From Stdlib Require Import String Ascii ZArith List Bool Lia.
From Stdlib Require Import DecimalString DecimalZ DecimalPos Floats.
Import ListNotations.
Local Open Scope Z_scope.

(** ** Python built-ins used by the script *)

Module Py.

(** [len(l)] *)
Definition len {A : Type} (l : list A) : Z := Z.of_nat (List.length l).

(** How a slice bound is read against a sequence of length [n]: a negative
    bound counts from the end, and every bound is clamped to [0 .. n]. *)
Definition slice_index (n i : Z) : Z :=
  if i <? 0 then Z.max 0 (i + n) else Z.min i n.

(** [l[start:stop]] *)
Definition slice {A : Type} (l : list A) (start stop : Z) : list A :=
  let lo := slice_index (len l) start in
  let hi := slice_index (len l) stop in
  firstn (Z.to_nat (hi - lo)) (skipn (Z.to_nat lo) l).

(** [list(range(start, stop, step))]; [None] is the [ValueError] that
    [range] raises for a zero step. *)
Definition range (start stop step : Z) : option (list Z) :=
  if step =? 0 then None
  else
    let count :=
      if 0 <? step then (stop - start + step - 1) / step
      else (start - stop - step - 1) / (- step) in
    Some (map (fun k => start + Z.of_nat k * step) (seq 0 (Z.to_nat count))).

(** [str(n)] for an [int] *)
Definition str_of_int (n : Z) : string := NilZero.string_of_int (Z.to_int n).

(** Python counts 29 characters as white space ([c.isspace()], the
    characters [strip] removes): U+0009 to U+000D, U+001C to U+0020, U+0085,
    U+00A0, U+1680, U+2000 to U+200A, U+2028, U+2029, U+202F, U+205F and
    U+3000.  In UTF-8 they take one, two or three bytes. *)
Definition whitespace1 (b1 : N) : bool :=
  (((9 <=? b1) && (b1 <=? 13)) || ((28 <=? b1) && (b1 <=? 32)))%N.

Definition whitespace2 (b1 b2 : N) : bool :=
  ((b1 =? 194) && ((b2 =? 133) || (b2 =? 160)))%N.

Definition whitespace3 (b1 b2 b3 : N) : bool :=
  (((b1 =? 225) && (b2 =? 154) && (b3 =? 128))
   || ((b1 =? 226) && (b2 =? 128)
       && (((128 <=? b3) && (b3 <=? 138)) || (b3 =? 168) || (b3 =? 169) || (b3 =? 175)))
   || ((b1 =? 226) && (b2 =? 129) && (b3 =? 159))
   || ((b1 =? 227) && (b2 =? 128) && (b3 =? 128)))%N.

(** [s.lstrip()] *)
Fixpoint lstrip (s : string) : string :=
  match s with
  | EmptyString => s
  | String b1 s1 =>
      if whitespace1 (N_of_ascii b1) then lstrip s1
      else
        match s1 with
        | EmptyString => s
        | String b2 s2 =>
            if whitespace2 (N_of_ascii b1) (N_of_ascii b2) then lstrip s2
            else
              match s2 with
              | EmptyString => s
              | String b3 s3 =>
                  if whitespace3 (N_of_ascii b1) (N_of_ascii b2) (N_of_ascii b3)
                  then lstrip s3
                  else s
              end
        end
  end.

Fixpoint reverse_onto (s acc : string) : string :=
  match s with
  | EmptyString => acc
  | String b s' => reverse_onto s' (String b acc)
  end.

(** The bytes of a string, last byte first. *)
Definition reverse (s : string) : string := reverse_onto s EmptyString.

(** [lstrip] on the bytes read backwards: the last byte of a character
    comes first. *)
Fixpoint lstrip_backwards (s : string) : string :=
  match s with
  | EmptyString => s
  | String b1 s1 =>
      if whitespace1 (N_of_ascii b1) then lstrip_backwards s1
      else
        match s1 with
        | EmptyString => s
        | String b2 s2 =>
            if whitespace2 (N_of_ascii b2) (N_of_ascii b1) then lstrip_backwards s2
            else
              match s2 with
              | EmptyString => s
              | String b3 s3 =>
                  if whitespace3 (N_of_ascii b3) (N_of_ascii b2) (N_of_ascii b1)
                  then lstrip_backwards s3
                  else s
              end
        end
  end.

(** [s.rstrip()] *)
Definition rstrip (s : string) : string := reverse (lstrip_backwards (reverse s)).

(** [s.strip()] *)
Definition strip (s : string) : string := rstrip (lstrip s).

(** The truth value of a [str]: false exactly for the empty string. *)
Definition truthy (s : string) : bool :=
  match s with EmptyString => false | String _ _ => true end.

Definition lower_ascii (c : ascii) : ascii :=
  let n := N_of_ascii c in
  if ((65 <=? n) && (n <=? 90))%N then ascii_of_N (n + 32) else c.

(** [s.lower()] on the letters A to Z.  The script only compares the result
    with literals made of ASCII characters other than [k], and the one
    character outside ASCII whose lower case is ASCII is the Kelvin sign,
    which becomes [k]: every such comparison is decided as Python decides
    it. *)
Fixpoint lower (s : string) : string :=
  match s with
  | EmptyString => EmptyString
  | String c s' => String (lower_ascii c) (lower s')
  end.

(** [x in l] for a list of strings *)
Definition mem (x : string) (l : list string) : bool :=
  existsb (String.eqb x) l.

End Py.

(** ** The tokenizer *)

(** A token id. *)
Abbreviation token := Z (only parsing).

(** A tiktoken [Encoding] object: [enc.encode] and [enc.decode]. *)
Record Encoding : Type := {
  encode : string -> list token;
  decode : list token -> string
}.

(** The [while start < len(tokens)] loop of [chunk_text], the same in both
    definitions.  [fuel] bounds the number of iterations; [None] means the
    bound was reached. *)
Fixpoint chunk_loop (fuel : nat) (enc : Encoding) (tokens : list token)
    (max_tokens start : Z) (chunks : list string) : option (list string) :=
  match fuel with
  | O => None
  | S fuel' =>
      if start <? Py.len tokens then
        let end_ := start + max_tokens in
        let chunk_tokens := Py.slice tokens start end_ in
        let chunk_text := decode enc chunk_tokens in
        chunk_loop fuel' enc tokens max_tokens end_ (chunks ++ [chunk_text])
      else Some chunks
  end.

(** The token windows the loop decodes, each with the index it starts at:
    the same iteration as [chunk_loop], recording [tokens[start:end]] where
    the loop records its decoding. *)
Fixpoint chunk_windows (fuel : nat) (tokens : list token) (max_tokens start : Z)
    : option (list (Z * list token)) :=
  match fuel with
  | O => None
  | S fuel' =>
      if start <? Py.len tokens then
        let end_ := start + max_tokens in
        option_map (cons (start, Py.slice tokens start end_))
                   (chunk_windows fuel' tokens max_tokens end_)
      else Some []
  end.

(** ** Data *)

Local Open Scope string_scope.
Local Open Scope list_scope.

(** An f-string: the concatenation of its parts. *)
Definition fstr (parts : list string) : string := String.concat "" parts.

(** A collected unit, [{"id": ..., "text": ...}]. *)
Record document : Type := {
  document_id : string;
  document_text : string
}.

Definition embedding : Type := list float.

(** A record handed to the vector store,
    [{"id": ..., "values": ..., "metadata": {"text": ...}}]. *)
Record vector : Type := {
  vector_id : string;
  vector_values : embedding;
  vector_metadata_text : string
}.

(** One match of a query result: [match['metadata']['text']], [match['score']]. *)
Record query_match : Type := {
  match_text : string;
  match_score : float
}.

(** What the command line holds for the four options [parse_args] declares. *)
Record CommandLine : Type := {
  opt_index : option string;
  opt_namespace : option string;
  opt_directory : option string;
  opt_non_interactive : bool
}.

(** The [args] namespace.  [args_batch_size] is [None] when the object has no
    attribute [batch_size], [Some None] when the attribute is [None], and
    [Some (Some n)] when it is the integer [n]. *)
Record Args : Type := {
  args_index : option string;
  args_namespace : option string;
  args_directory : option string;
  args_non_interactive : bool;
  args_batch_size : option (option Z)
}.

(** What [parser.parse_args()] makes of [sys.argv]: the options of a command
    line it accepts; or, for [-h] and [--help], the help it prints before it
    ends the process with status 0; or, for a command line it rejects (an
    option it does not know, an option without its value), the usage and the
    error it writes before it ends the process with status 2. *)
Inductive Argv : Type :=
| Accepted (cmd : CommandLine)
| HelpRequested (help : string)
| Rejected (message : string).

(** ** Effects *)

(** The exceptions of class [Exception] that occur in a run.  [OSError] is
    the class Python 3 also names [IOError] and [EnvironmentError];
    [NameError] is raised by the use of a name that is not bound;
    [Exception] stands for any other exception a library raises. *)
Inductive exception : Type :=
| OSError (msg : string)
| Exception (msg : string)
| NameError (name : string)
| ValueError
| IndexError
| EOFError.

(** What can be raised: an [exception], or [SystemExit], which no
    [except Exception] clause catches. *)
Inductive exn : Type :=
| Exc (e : exception)
| SystemExit (code : Z).

(** The text [{e}] interpolates for a caught exception. *)
Definition exception_message (e : exception) : string :=
  match e with
  | OSError msg | Exception msg => msg
  | NameError name => fstr ["name '"; name; "' is not defined"]
  | ValueError => "ValueError"
  | IndexError => "IndexError"
  | EOFError => "EOFError"
  end.

(** What a collaborator answers: a value, or the exception it raises. *)
Definition result (A : Type) : Type := (exception + A)%type.

(** The effects of a run: what [print] and [input] do, the calls to the
    embedding provider and the vector store, and what argparse writes before
    it ends the process (the help on standard output, the usage and the
    error on standard error). *)
Inductive event : Type :=
| EvPrint (line : string)
| EvPrintIndexes (label : string) (names : list string)
| EvPrintMatch (text : string) (score : float)
| EvInput (prompt : string)
| EvCreateIndex (name : string) (dimension : Z) (metric cloud region : string)
| EvEmbed (model : string) (texts : list string)
| EvUpsert (index : string) (batch : list vector) (ns : string)
| EvQuery (index : string) (ns : string) (v : embedding) (top_k : Z)
| EvArgparse (to_stderr : bool) (text : string).

(** The state of a run: the lines still to be read from standard input and
    the effects so far, oldest first. *)
Record world : Type := {
  stdin : list string;
  trace : list event
}.

(** How a computation ends: with a value, with an exception, or not at all
    ([Diverge] marks a loop whose iteration bound was reached). *)
Inductive outcome (A : Type) : Type :=
| Ret (a : A)
| Raise (e : exn)
| Diverge.

Arguments Ret {A} a.
Arguments Raise {A} e.
Arguments Diverge {A}.

Definition IO (A : Type) : Type := world -> outcome A * world.

Definition ret {A : Type} (a : A) : IO A := fun w => (Ret a, w).

Definition bind {A B : Type} (c : IO A) (k : A -> IO B) : IO B :=
  fun w =>
    match c w with
    | (Ret a, w') => k a w'
    | (Raise e, w') => (Raise e, w')
    | (Diverge, w') => (Diverge, w')
    end.

Definition raise {A : Type} (e : exn) : IO A := fun w => (Raise e, w).

Definition diverge {A : Type} : IO A := fun w => (Diverge, w).

Definition emit (e : event) : IO unit :=
  fun w => (Ret tt, {| stdin := stdin w; trace := trace w ++ [e] |}).

(** A collaborator's answer, raised when it is an exception. *)
Definition lift {A : Type} (r : result A) : IO A :=
  match r with
  | inl e => raise (Exc e)
  | inr a => ret a
  end.

(** A pure loop with an iteration bound, [None] being the bound reached. *)
Definition lift_option {A : Type} (o : option A) : IO A :=
  match o with
  | Some a => ret a
  | None => diverge
  end.

Declare Scope io_scope.
Delimit Scope io_scope with io.
Bind Scope io_scope with IO.

Notation "x <- c ;; k" := (bind c (fun x => k))
  (at level 61, c at next level, right associativity) : io_scope.
Notation "' p <- c ;; k" := (bind c (fun p => k))
  (at level 61, p pattern, c at next level, right associativity) : io_scope.
Notation "c ;; k" := (bind c (fun _ => k))
  (at level 61, right associativity) : io_scope.

Local Open Scope io_scope.

(** [print(line)] *)
Definition print (line : string) : IO unit := emit (EvPrint line).

(** [input(prompt)]: the prompt is written, and the next line of standard
    input is returned; [EOFError] when there is none. *)
Definition input (prompt : string) : IO string :=
  fun w =>
    let tr := trace w ++ [EvInput prompt] in
    match stdin w with
    | [] => (Raise (Exc EOFError), {| stdin := []; trace := tr |})
    | line :: rest => (Ret line, {| stdin := rest; trace := tr |})
    end.

(** [sys.exit(code)] *)
Definition sys_exit {A : Type} (code : Z) : IO A := raise (SystemExit code).

(** A [for x in l:] loop whose body updates the local variables [s]. *)
Fixpoint for_each {A S : Type} (l : list A) (body : A -> S -> IO S) (s : S) : IO S :=
  match l with
  | [] => ret s
  | x :: l' => s' <- body x s ;; for_each l' body s'
  end.

(** The exit status of the process for the way [main] ends: 0 when it
    returns, the code of an uncaught [SystemExit], 1 for any other uncaught
    exception; none when it does not end. *)
Definition exit_status {A : Type} (o : outcome A) : option Z :=
  match o with
  | Ret _ => Some 0
  | Raise (SystemExit code) => Some code
  | Raise _ => Some 1
  | Diverge => None
  end.

(** ** The collaborators *)

(** The environment of a run.  Every field stands for a call the script makes
    into the operating system or a library; a call that can raise answers a
    [result]. *)
Record Env : Type := {
  (** [os.getenv(name, default)] *)
  getenv : string -> string -> string;
  (** [os.path.isdir], [os.access(_, os.R_OK)], [os.walk], [os.path.join],
      [os.path.splitext(_)[1]] *)
  isdir : string -> bool;
  access_R_OK : string -> bool;
  walk : string -> list (string * list string * list string);
  path_join : string -> string -> string;
  splitext_ext : string -> string;
  (** [tiktoken.get_encoding(name)] *)
  get_encoding : string -> Encoding;
  (** whether the optional modules were imported ([PyPDF2], [docx] not [None]) *)
  PyPDF2 : bool;
  docx : bool;
  (** [open(filepath, "r", encoding="utf-8", errors="ignore")] and [f.read()] *)
  read_text : string -> result string;
  (** [open(filepath, "rb")] *)
  open_rb : string -> result unit;
  (** [PyPDF2.PdfReader(f)] and, for each of [reader.pages] in order, what
      [page.extract_text()] answers ([None] for Python's [None]) *)
  PdfReader_pages : string -> result (list (result (option string)));
  (** [docx.Document(filepath)] and [[para.text for para in doc.paragraphs]] *)
  docx_paragraphs : string -> result (list string);
  (** [pc.list_indexes().names()], [pc.create_index(name=...)] *)
  list_indexes_names : list string;
  create_index : string -> result unit;
  (** [client.embeddings.create(model=..., input=texts)], read through
      [[r.embedding for r in response.data]] *)
  embeddings_create : string -> list string -> result (list embedding);
  (** [index.upsert(batch, namespace=ns)] and [index.query(...)["matches"]]
      on the index of the given name *)
  index_upsert : string -> list vector -> string -> result unit;
  index_query : string -> string -> embedding -> Z -> result (list query_match)
}.

(** ** Configuration and argument parsing *)

Definition load_config (env : Env) : IO (string * string) :=
  let pinecone_key := getenv env "PINECONE_API_KEY" "" in
  let openai_key := getenv env "OPENAI_API_KEY" "" in
  if negb (Py.truthy pinecone_key) || negb (Py.truthy openai_key) then
    raise (Exc (OSError
      "Please set both PINECONE_API_KEY and OPENAI_API_KEY environment variables."))
  else ret (pinecone_key, openai_key).

(** The [argparse.Namespace] of an accepted command line: the parser
    declares [--index], [--namespace], [--directory] and [--non-interactive],
    and nothing named [batch_size]. *)
Definition argparse_Namespace (cmd : CommandLine) : Args :=
  {| args_index := opt_index cmd;
     args_namespace := opt_namespace cmd;
     args_directory := opt_directory cmd;
     args_non_interactive := opt_non_interactive cmd;
     args_batch_size := None |}.

(** [parse_args()]: [parser.parse_args()] returns the namespace, or writes
    and ends the process. *)
Definition parse_args (argv : Argv) : IO Args :=
  match argv with
  | Accepted cmd => ret (argparse_Namespace cmd)
  | HelpRequested help => emit (EvArgparse false help) ;; sys_exit 0
  | Rejected message => emit (EvArgparse true message) ;; sys_exit 2
  end.

(** ** Index and namespace selection *)

(** [pc.create_index(name=name, dimension=3072, metric="cosine",
    spec=ServerlessSpec(cloud="aws", region="us-east-1"))] *)
Definition pc_create_index (env : Env) (name : string) : IO unit :=
  emit (EvCreateIndex name 3072 "cosine" "aws" "us-east-1") ;;
  lift (create_index env name).

(** The [while True] loop of the interactive mode. *)
Fixpoint select_index_loop (fuel : nat) (env : Env) (existing_indexes : list string)
    : IO string :=
  match fuel with
  | O => diverge
  | S fuel' =>
      choice <- input
        "Do you want to (s)elect an existing index or (c)reate a new one? [s/c]: " ;;
      let choice := Py.lower (Py.strip choice) in
      if negb (Py.mem choice ["s"; "c"]) then
        print "Invalid choice. Please enter 's' to select or 'c' to create." ;;
        select_index_loop fuel' env existing_indexes
      else if choice =? "s" then
        index_name <- input "Enter the name of the existing index: " ;;
        let index_name := Py.strip index_name in
        if Py.mem index_name existing_indexes then ret index_name
        else
          create_choice <- input (fstr ["Index '"; index_name;
            "' does not exist. Would you like to create it instead? (y/n): "]) ;;
          let create_choice := Py.lower (Py.strip create_choice) in
          if create_choice =? "y" then
            print (fstr ["Creating new index '"; index_name; "'..."]) ;;
            pc_create_index env index_name ;;
            ret index_name
          else
            print "Let's try again." ;;
            select_index_loop fuel' env existing_indexes
      else if choice =? "c" then
        index_name <- input "Enter a name for the new index: " ;;
        let index_name := Py.strip index_name in
        (if Py.mem index_name existing_indexes then
           print (fstr ["Index '"; index_name;
                        "' already exists. Using the existing index."])
         else
           print (fstr ["Creating new index '"; index_name; "'..."]) ;;
           pc_create_index env index_name) ;;
        ret index_name
      else select_index_loop fuel' env existing_indexes
  end.

(** [select_or_create_index(pc, provided_index, non_interactive)].  Every
    iteration of the interactive loop reads a line or ends the loop, so the
    lines left on standard input bound its iterations. *)
Definition select_or_create_index (env : Env) (provided_index : option string)
    (non_interactive : bool) : IO string :=
  let existing_indexes := list_indexes_names env in
  let unprovided : IO string :=
    if non_interactive then
      let default_index := "default_index" in
      (if negb (Py.mem default_index existing_indexes) then
         print (fstr ["Creating default index '"; default_index; "'..."]) ;;
         pc_create_index env default_index
       else
         print (fstr ["Using existing default index: "; default_index])) ;;
      ret default_index
    else
      emit (EvPrintIndexes "Existing indexes:" existing_indexes) ;;
      fun w => select_index_loop (S (List.length (stdin w))) env existing_indexes w in
  match provided_index with
  | Some name =>
      if Py.truthy name then
        if Py.mem name existing_indexes then
          print (fstr ["Using provided existing index: "; name]) ;;
          ret name
        else
          print (fstr ["Provided index '"; name; "' does not exist. Creating it..."]) ;;
          pc_create_index env name ;;
          ret name
      else unprovided
  | None => unprovided
  end.

(** [select_or_create_namespace(provided_namespace, non_interactive)], the
    running definition: an empty answer at the prompt gives [None]. *)
Definition select_or_create_namespace (provided_namespace : option string)
    (non_interactive : bool) : IO (option string) :=
  match provided_namespace with
  | Some ns =>
      print (fstr ["Using provided namespace: '"; ns; "'"]) ;;
      ret (Some ns)
  | None =>
      if non_interactive then
        let default_namespace := "default_namespace" in
        print (fstr ["Non-interactive mode: using default namespace '";
                     default_namespace; "'"]) ;;
        ret (Some default_namespace)
      else
        namespace <- input
          "Enter a namespace to use (or press Enter to use the default namespace): " ;;
        let namespace := Py.strip namespace in
        ret (if negb (namespace =? "") then Some namespace else None)
  end.

(** The first binding of [select_or_create_namespace]: an empty answer at the
    prompt gives the empty string. *)
Definition select_or_create_namespace_shadowed (provided_namespace : option string)
    (non_interactive : bool) : IO (option string) :=
  match provided_namespace with
  | Some ns =>
      print (fstr ["Using provided namespace: '"; ns; "'"]) ;;
      ret (Some ns)
  | None =>
      if non_interactive then
        let default_namespace := "default_namespace" in
        print (fstr ["Non-interactive mode: using default namespace '";
                     default_namespace; "'"]) ;;
        ret (Some default_namespace)
      else
        namespace <- input
          "Enter a namespace to use (or press Enter to use the default namespace): " ;;
        let namespace := Py.strip namespace in
        ret (if negb (namespace =? "") then Some namespace else Some "")
  end.

(** ** Document chunking *)

(** The use of a global name that the module binds nowhere: looking the
    name up raises [NameError]. *)
Definition unbound_name {A : Type} (name : string) : IO A :=
  raise (Exc (NameError name)).

(** [chunk_text(text, max_tokens)], the running definition (lines 321-341).
    It asks [tokenize_text(text)] for the tokens, and no [def], assignment
    or import of the module binds [tokenize_text].  The rest of the body is
    written as the source has it. *)
Definition chunk_text (env : Env) (text : string) (max_tokens : Z)
    : IO (list string) :=
  let enc := get_encoding env "cl100k_base" in
  tokens <- (unbound_name "tokenize_text" : IO (list token)) ;;
  if (Py.len tokens <=? max_tokens)%Z then ret [text]
  else lift_option (chunk_loop (S (List.length tokens)) enc tokens max_tokens 0 []).

(** The first binding of [chunk_text] (lines 131-151), which tokenizes with
    [enc.encode] and which no call reaches.  A positive [max_tokens] needs at
    most [len(tokens)] iterations, so the fuel given here never runs out for
    it; [None] stands for the loop that never ends, which is what Python
    does for a [max_tokens <= 0] below [len(tokens)]. *)
Definition chunk_text_shadowed (env : Env) (text : string) (max_tokens : Z)
    : option (list string) :=
  let enc := get_encoding env "cl100k_base" in
  let tokens := encode enc text in
  if (Py.len tokens <=? max_tokens)%Z then Some [text]
  else chunk_loop (S (List.length tokens)) enc tokens max_tokens 0 [].

(** ** File processing *)

Definition newline : string := String (ascii_of_nat 10) EmptyString.

(** [for page in reader.pages: text += page.extract_text() or ""], up to the
    first page whose extraction raises. *)
Fixpoint extract_pages (pages : list (result (option string))) (text : string)
    : result string :=
  match pages with
  | [] => inr text
  | inl e :: _ => inl e
  | inr extracted :: rest =>
      let piece :=
        match extracted with
        | Some s => if Py.truthy s then s else ""
        | None => ""
        end in
      extract_pages rest (String.append text piece)
  end.

(** The two handlers that close the [try] block of [process_file]. *)
Definition process_file_except (filepath : string) (e : exception)
    : IO (option string) :=
  match e with
  | OSError _ =>
      print (fstr ["IOError processing file "; filepath; ": "; exception_message e]) ;;
      ret None
  | _ =>
      print (fstr ["Unexpected error processing file "; filepath; ": ";
                   exception_message e]) ;;
      ret None
  end.

(** [process_file(filepath)], the running definition.  The [try] block is the
    computation [extracted]: it answers [Some text] when control leaves the
    block normally and [None] where the source returns the empty list.  The
    call of [chunk_text] comes after the [try] statement: what it raises is
    not caught. *)
Definition process_file (env : Env) (filepath : string)
    : IO (list string) :=
  let ext := Py.lower (splitext_ext env filepath) in
  let text := "" in
  let extracted : IO (option string) :=
    if Py.mem ext [".txt"; ".md"; ".py"; ".json"; ".csv"] then
      match read_text env filepath with
      | inr text => ret (Some text)
      | inl e => process_file_except filepath e
      end
    else if (ext =? ".pdf") && PyPDF2 env then
      match open_rb env filepath with
      | inl e => process_file_except filepath e
      | inr _ =>
          match PdfReader_pages env filepath with
          | inl e =>
              print (fstr ["Error reading PDF "; filepath; ": "; exception_message e]) ;;
              ret None
          | inr pages =>
              match extract_pages pages text with
              | inl e =>
                  print (fstr ["Error reading PDF "; filepath; ": ";
                               exception_message e]) ;;
                  ret None
              | inr text => ret (Some text)
              end
          end
      end
    else if Py.mem ext [".docx"] && docx env then
      match docx_paragraphs env filepath with
      | inl e =>
          print (fstr ["Error reading DOCX "; filepath; ": "; exception_message e]) ;;
          ret None
      | inr paragraphs => ret (Some (String.concat newline paragraphs))
      end
    else
      match read_text env filepath with
      | inr text => ret (Some text)
      | inl e => process_file_except filepath e
      end in
  extracted <- extracted ;;
  match extracted with
  | None => ret []
  | Some text =>
      chunks <- chunk_text env text 1000 ;;
      print (fstr ["Processed '"; filepath; "' into ";
                   Py.str_of_int (Py.len chunks); " chunk(s)."]) ;;
      ret chunks
  end.

(** [process_directory(directory)], the running definition.  The local
    variables of the loops are the pair [(documents, doc_id)]. *)
Definition process_directory (env : Env) (directory : string)
    : IO (list document) :=
  let documents : list document := [] in
  let doc_id := 1%Z in
  locals <-
    for_each (walk env directory) (fun '(root, dirs, files) locals =>
      for_each files (fun file locals =>
        let filepath := path_join env root file in
        chunks <- process_file env filepath ;;
        for_each chunks (fun chunk '(documents, doc_id) =>
          if Py.truthy (Py.strip chunk) then
            ret (documents ++ [{| document_id := fstr ["doc"; Py.str_of_int doc_id];
                                  document_text := chunk |}],
                 (doc_id + 1)%Z)
          else ret (documents, doc_id)) locals) locals)
      (documents, doc_id) ;;
  ret (fst locals).

(** ** Initialisation *)

(** [initialize(args)]: the clients are stood for by their keys and the index
    object by its name. *)
Definition initialize (env : Env) (args : Args)
    : IO (string * string * string * option string) :=
  '(PINECONE_API_KEY, OPENAI_API_KEY) <- load_config env ;;
  let client := OPENAI_API_KEY in
  let pc := PINECONE_API_KEY in
  index_name <- select_or_create_index env (args_index args)
                                       (args_non_interactive args) ;;
  let index := index_name in
  namespace <- select_or_create_namespace (args_namespace args)
                                          (args_non_interactive args) ;;
  ret (client, pc, index, namespace).

(** ** Embedding, upsert and query (the functions local to [main]) *)

Definition embed_text (env : Env) (texts : list string) (client : string)
    : IO (list embedding) :=
  emit (EvEmbed "text-embedding-3-large" texts) ;;
  lift (embeddings_create env "text-embedding-3-large" texts).

(** [args.batch_size if hasattr(args, 'batch_size') and args.batch_size else 100] *)
Definition batch_size_of (args : Args) : Z :=
  match args_batch_size args with
  | Some (Some n) => if (n =? 0)%Z then 100%Z else n
  | Some None => 100%Z
  | None => 100%Z
  end.

(** The list comprehension over [zip(documents, embeddings)]. *)
Definition vectors_of (documents : list document) (embeddings : list embedding)
    : list vector :=
  map (fun '(doc, emb) =>
         {| vector_id := document_id doc;
            vector_values := emb;
            vector_metadata_text := document_text doc |})
      (combine documents embeddings).

(** [namespace if namespace else ""] *)
Definition ns_of (namespace : option string) : string :=
  match namespace with
  | Some s => if Py.truthy s then s else ""
  | None => ""
  end.

(** [str(x)] for the optional string [args.index]. *)
Definition str_of_opt (o : option string) : string :=
  match o with
  | Some s => s
  | None => "None"
  end.

Definition upsert_data (env : Env) (documents : list document) (index : string)
    (namespace : option string) (client : string) (args : Args) : IO unit :=
  let batch_size := batch_size_of args in
  embeddings <- embed_text env (map document_text documents) client ;;
  let vectors := vectors_of documents embeddings in
  let ns := ns_of namespace in
  let total_batches := ((Py.len vectors + batch_size - 1) / batch_size)%Z in
  starts <- match Py.range 0 (Py.len vectors) batch_size with
            | Some starts => ret starts
            | None => raise (Exc ValueError)
            end ;;
  for_each starts (fun i _ =>
    let batch := Py.slice vectors i (i + batch_size) in
    emit (EvUpsert index batch ns) ;;
    lift (index_upsert env index batch ns) ;;
    print (fstr ["Upserted batch "; Py.str_of_int (i / batch_size + 1); " of ";
                 Py.str_of_int total_batches])) tt ;;
  print (String.append
    (fstr ["Successfully upserted "; Py.str_of_int (Py.len vectors);
           " documents into index '"; str_of_opt (args_index args); "'"])
    (if Py.truthy ns then fstr [" under namespace '"; ns; "'."] else ".")).

Definition query_pinecone (env : Env) (query : string) (index : string)
    (namespace : option string) (client : string) (args : Args) (top_k : Z)
    : IO (list query_match) :=
  embeddings <- embed_text env [query] client ;;
  query_embedding <- match embeddings with
                     | e :: _ => ret e
                     | [] => raise (Exc IndexError)
                     end ;;
  let ns := ns_of namespace in
  emit (EvQuery index ns query_embedding top_k) ;;
  lift (index_query env index ns query_embedding top_k).

Definition get_directory (env : Env) (args : Args) : IO string :=
  let unprovided : IO string :=
    if args_non_interactive args then
      let directory := "./documents" in
      print (fstr ["Non-interactive mode: using default directory '"; directory; "'"]) ;;
      ret directory
    else
      directory <- input "Enter the path to the directory containing your files: " ;;
      ret (Py.strip directory) in
  directory <-
    match args_directory args with
    | Some d => if Py.truthy d then ret d else unprovided
    | None => unprovided
    end ;;
  if negb (isdir env directory) then
    print (fstr ["Directory '"; directory; "' is invalid. Exiting."]) ;;
    sys_exit 1
  else if negb (access_R_OK env directory) then
    print (fstr ["Directory '"; directory; "' is not readable. Exiting."]) ;;
    sys_exit 1
  else ret directory.

(** The interactive query loop that ends [main]. *)
Fixpoint query_loop (fuel : nat) (env : Env) (index : string)
    (namespace : option string) (client : string) (args : Args) : IO unit :=
  match fuel with
  | O => diverge
  | S fuel' =>
      choice <- input "Would you like to (q)uery the index or (e)xit? [q/e]: " ;;
      let choice := Py.lower (Py.strip choice) in
      if choice =? "q" then
        user_query <- input "Enter your query: " ;;
        let user_query := Py.strip user_query in
        results <- query_pinecone env user_query index namespace client args 3 ;;
        print (String.append newline "Top Results:") ;;
        for_each results (fun m _ =>
          emit (EvPrintMatch (match_text m) (match_score m))) tt ;;
        query_loop fuel' env index namespace client args
      else if choice =? "e" then
        print "Exiting. Goodbye!"
      else
        print "Invalid option. Please enter 'q' to query or 'e' to exit." ;;
        query_loop fuel' env index namespace client args
  end.

(** ** The main function *)

Definition main (env : Env) (argv : Argv) : IO unit :=
  args <- parse_args argv ;;
  directory <- get_directory env args ;;
  print "Processing files in directory. This may take a while..." ;;
  documents <- process_directory env directory ;;
  match documents with
  | [] =>
      print "No valid documents found. Exiting." ;;
      sys_exit 1
  | _ :: _ =>
      '(client, pc, index, namespace) <- initialize env args ;;
      upsert_data env documents index namespace client args ;;
      if negb (args_non_interactive args) then
        fun w => query_loop (S (List.length (stdin w))) env index namespace client args w
      else
        print "Non-interactive mode complete. Exiting."
  end.

(** ** Observations on a run *)

(** A run of the program on a command line and the lines of standard input. *)
Definition initial_world (inputs : list string) : world :=
  {| stdin := inputs; trace := [] |}.

Definition run (env : Env) (argv : Argv) (inputs : list string)
    : outcome unit * world :=
  main env argv (initial_world inputs).

(** The batches of the [index.upsert] calls of a trace, in the order issued. *)
Fixpoint upsert_calls (tr : list event) : list (list vector) :=
  match tr with
  | [] => []
  | EvUpsert _ batch _ :: tr' => batch :: upsert_calls tr'
  | _ :: tr' => upsert_calls tr'
  end.

(** The namespaces the [index.upsert] calls of a trace were given. *)
Fixpoint upsert_namespaces (tr : list event) : list string :=
  match tr with
  | [] => []
  | EvUpsert _ _ ns :: tr' => ns :: upsert_namespaces tr'
  | _ :: tr' => upsert_namespaces tr'
  end.

(** Whether an event is a call to the embedding provider or the vector store. *)
Definition is_remote_call (e : event) : bool :=
  match e with
  | EvEmbed _ _ | EvUpsert _ _ _ | EvQuery _ _ _ _ | EvCreateIndex _ _ _ _ _ => true
  | EvPrint _ | EvPrintIndexes _ _ | EvPrintMatch _ _ | EvInput _
  | EvArgparse _ _ => false
  end.

(** The files a traversal visits, in order: [os.path.join(root, file)] for
    every [file] of every [(root, dirs, files)] of [os.walk(directory)]. *)
Definition walk_paths (env : Env) (directory : string) : list string :=
  flat_map (fun '(root, dirs, files) => map (path_join env root) files)
           (walk env directory).

(** A computation that, in every state, ends the same way, reads no input
    and has no effect but printing the same lines. *)
Definition ends_quietly {A : Type} (c : IO A) (o : outcome A) : Prop :=
  exists lines : list string,
    forall w, c w = (o, {| stdin := stdin w; trace := trace w ++ map EvPrint lines |}).

(** A computation whose effects, however it ends, are no calls to the
    embedding provider or the vector store. *)
Definition stays_local {A : Type} (c : IO A) : Prop :=
  forall w o w',
    c w = (o, w') ->
    exists events, trace w' = trace w ++ events
                   /\ existsb is_remote_call events = false.

(** A computation that ends, and leaves no more input than it found, in
    every state with at most [n] lines of input left. *)
Definition ends_within {A : Type} (n : nat) (c : IO A) : Prop :=
  forall w o w',
    (List.length (stdin w) <= n)%nat ->
    c w = (o, w') ->
    o <> Diverge /\ (List.length (stdin w') <= List.length (stdin w))%nat.

(** The passes of the two nested loops of [process_directory] over a list of
    file paths: what the loop body does for each path to the local variables
    [(documents, doc_id)]. *)
Definition visit_files (env : Env) (paths : list string) (locals : list document * Z)
    : IO (list document * Z) :=
  for_each paths (fun filepath locals =>
    chunks <- process_file env filepath ;;
    for_each chunks (fun chunk '(documents, doc_id) =>
      if Py.truthy (Py.strip chunk) then
        ret (documents ++ [{| document_id := fstr ["doc"; Py.str_of_int doc_id];
                              document_text := chunk |}],
             (doc_id + 1)%Z)
      else ret (documents, doc_id)) locals) locals.

Definition is_error {A : Type} (r : result A) : bool :=
  match r with inl _ => true | inr _ => false end.

(** Whether extracting the text of a file fails: the reader that the file's
    extension selects raises.  For a PDF that is opening the file, building
    the reader, or extracting any page.  A file of any other type is read as
    text, and fails when that read raises. *)
Definition extraction_fails (env : Env) (filepath : string) : bool :=
  let ext := Py.lower (splitext_ext env filepath) in
  if Py.mem ext [".txt"; ".md"; ".py"; ".json"; ".csv"] then
    is_error (read_text env filepath)
  else if (ext =? ".pdf") && PyPDF2 env then
    is_error (open_rb env filepath) ||
    match PdfReader_pages env filepath with
    | inl _ => true
    | inr pages => existsb is_error pages
    end
  else if Py.mem ext [".docx"] && docx env then
    is_error (docx_paragraphs env filepath)
  else is_error (read_text env filepath).

(** [ceil(n / b)] for a positive [b] *)
Definition ceil_div (n b : Z) : Z := ((n + b - 1) / b)%Z.

(** The slices [l[k*b : k*b + b]] for [k] below [count]. *)
Definition windows_of {A : Type} (l : list A) (b : Z) (count : nat) : list (list A) :=
  map (fun k => Py.slice l (Z.of_nat k * b) (Z.of_nat k * b + b)) (seq 0 count).

(** The number of slices of [b] elements a list is cut into. *)
Definition window_count {A : Type} (l : list A) (b : Z) : nat :=
  Z.to_nat (ceil_div (Py.len l) b).

(** The events of the pass of the batch loop of [upsert_data] that starts at
    [i]: the write of [vectors[i : i + batch_size]] and the progress line. *)
Definition pass_events (vectors : list vector) (index ns : string) (batch_size i : Z)
    : list event :=
  [EvUpsert index (Py.slice vectors i (i + batch_size)) ns;
   EvPrint (fstr ["Upserted batch "; Py.str_of_int (i / batch_size + 1); " of ";
                  Py.str_of_int ((Py.len vectors + batch_size - 1) / batch_size)])].

(** ** Sample collaborators *)

Definition bytes_of_string (s : string) : list token :=
  map (fun c => Z.of_N (N_of_ascii c)) (list_ascii_of_string s).

Definition string_of_bytes (bytes : list token) : string :=
  string_of_list_ascii (map (fun b => ascii_of_N (Z.to_N b)) bytes).

(** An encoding with one token per byte, whose [decode] keeps every byte. *)
Definition byte_encoding : Encoding :=
  {| encode := bytes_of_string; decode := string_of_bytes |}.

(** The extension of a path: from its last dot on. *)
Fixpoint ext_of (path : string) : string :=
  match path with
  | EmptyString => EmptyString
  | String c rest =>
      match ext_of rest with
      | EmptyString => if Ascii.eqb c "."%char then path else EmptyString
      | ext => ext
      end
  end.

(** A file system with three directories: [docs] holds a text file, a PDF
    that cannot be parsed and a second text file; [empty] holds the PDF
    alone; [mixed] holds the PDF, a file of a type the script has no reader
    for, and a text file.  Both keys are set; the embedding provider answers
    one vector per text and the store accepts every write. *)
Definition sample_env : Env :=
  {| getenv := fun name default =>
       if Py.mem name ["PINECONE_API_KEY"; "OPENAI_API_KEY"] then "key" else default;
     isdir := fun d => Py.mem d ["docs"; "empty"; "mixed"];
     access_R_OK := fun _ => true;
     walk := fun d =>
       if d =? "docs" then [("docs", [], ["a.txt"; "broken.pdf"; "b.md"])]
       else if d =? "empty" then [("empty", [], ["broken.pdf"])]
       else if d =? "mixed" then [("mixed", [], ["broken.pdf"; "data.bin"; "b.md"])]
       else [];
     path_join := fun root file => fstr [root; "/"; file];
     splitext_ext := ext_of;
     get_encoding := fun _ => byte_encoding;
     PyPDF2 := true;
     docx := false;
     read_text := fun path =>
       if path =? "docs/a.txt" then inr "alpha"
       else if path =? "docs/b.md" then inr "beta"
       else if path =? "mixed/data.bin" then inr "raw"
       else if path =? "mixed/b.md" then inr "beta"
       else inl (OSError "No such file or directory");
     open_rb := fun _ => inr tt;
     PdfReader_pages := fun _ => inl (Exception "EOF marker not found");
     docx_paragraphs := fun _ => inl (Exception "Package not found");
     list_indexes_names := ["default_index"];
     create_index := fun _ => inr tt;
     embeddings_create := fun _ texts => inr (map (fun _ => [0.5%float]) texts);
     index_upsert := fun _ _ _ => inr tt;
     index_query := fun _ _ _ _ => inr [] |}.

(** [sample_env] with an embedding provider that answers one vector too few. *)
Definition short_env : Env :=
  {| getenv := getenv sample_env;
     isdir := isdir sample_env;
     access_R_OK := access_R_OK sample_env;
     walk := walk sample_env;
     path_join := path_join sample_env;
     splitext_ext := splitext_ext sample_env;
     get_encoding := get_encoding sample_env;
     PyPDF2 := PyPDF2 sample_env;
     docx := docx sample_env;
     read_text := read_text sample_env;
     open_rb := open_rb sample_env;
     PdfReader_pages := PdfReader_pages sample_env;
     docx_paragraphs := docx_paragraphs sample_env;
     list_indexes_names := list_indexes_names sample_env;
     create_index := create_index sample_env;
     embeddings_create := fun _ texts =>
       inr (map (fun _ => [0.5%float]) (removelast texts));
     index_upsert := index_upsert sample_env;
     index_query := index_query sample_env |}.

Definition unit_of (n : Z) (text : string) : document :=
  {| document_id := fstr ["doc"; Py.str_of_int n]; document_text := text |}.

Definition four_units : list document :=
  [unit_of 1 "one"; unit_of 2 "two"; unit_of 3 "three"; unit_of 4 "four"].

(** The command line [--index default_index --directory <d> --non-interactive]. *)
Definition sample_cmd (d : string) : CommandLine :=
  {| opt_index := Some "default_index";
     opt_namespace := None;
     opt_directory := Some d;
     opt_non_interactive := true |}.

(** [count] units [doc<first>], [doc<first + 1>], ... with the same text. *)
Definition units_from (first : Z) (count : nat) : list document :=
  map (fun k => unit_of (first + Z.of_nat k) "text") (seq 0 count).

Definition args_with_batch_size (b : option (option Z)) : Args :=
  {| args_index := Some "default_index";
     args_namespace := None;
     args_directory := None;
     args_non_interactive := true;
     args_batch_size := b |}.

(** ** Further observations on a run *)

(** The names of the indexes a trace asks the store to create. *)
Fixpoint created_indexes (tr : list event) : list string :=
  match tr with
  | [] => []
  | EvCreateIndex name _ _ _ _ :: tr' => name :: created_indexes tr'
  | _ :: tr' => created_indexes tr'
  end.

(** The lines a trace prints with [print(line)]. *)
Fixpoint printed (tr : list event) : list string :=
  match tr with
  | [] => []
  | EvPrint line :: tr' => line :: printed tr'
  | _ :: tr' => printed tr'
  end.

(** The truth value of an optional string: an option given, and not empty. *)
Definition provided (o : option string) : bool :=
  match o with
  | Some s => Py.truthy s
  | None => false
  end.

Definition is_input (e : event) : bool :=
  match e with EvInput _ => true | _ => false end.

(** A computation all of whose events, however it ends, satisfy [p], and
    which leaves standard input as it found it unless it prompts. *)
Definition only {A : Type} (p : event -> bool) (c : IO A) : Prop :=
  forall w o w',
    c w = (o, w') ->
    exists events,
      trace w' = trace w ++ events
      /\ forallb p events = true
      /\ (existsb is_input events = false -> stdin w' = stdin w).

(** Whether a write or a query addresses the index [index] and the
    namespace [ns]; every other event passes. *)
Definition targets (index ns : string) (e : event) : bool :=
  match e with
  | EvUpsert index' _ ns' => (index' =? index) && (ns' =? ns)
  | EvQuery index' ns' _ _ => (index' =? index) && (ns' =? ns)
  | _ => true
  end.

(** What [select_or_create_index] may do in a store that holds the indexes
    [existing]: ask for no index and return only an existing one, or ask
    once, for an index that does not exist, and return only that one. *)
Definition index_choice (existing : list string) (o : outcome string)
    (events : list event) : Prop :=
  match created_indexes events with
  | [] => forall name, o = Ret name -> Py.mem name existing = true
  | [created] =>
      Py.mem created existing = false /\ (forall name, o = Ret name -> name = created)
  | _ :: _ :: _ => False
  end.

(** Whether an event is a call that carries data to or from the embedding
    provider or the vector store: an embedding, a write or a query. *)
Definition is_data_call (e : event) : bool :=
  match e with
  | EvEmbed _ _ | EvUpsert _ _ _ | EvQuery _ _ _ _ => true
  | _ => false
  end.

(** A computation that returns only values that satisfy [Q]. *)
Definition returns_only {A : Type} (Q : A -> Prop) (c : IO A) : Prop :=
  forall w a w', c w = (Ret a, w') -> Q a.

(** A computation that raises only what satisfies [E]. *)
Definition raises_only {A : Type} (E : exn -> Prop) (c : IO A) : Prop :=
  forall w e w', c w = (Raise e, w') -> E e.

(** A computation all of whose writes and queries, however it ends, address
    one index and one namespace, which satisfy [C]. *)
Definition single_target {A : Type} (C : string -> string -> Prop) (c : IO A) : Prop :=
  forall w o w',
    c w = (o, w') ->
    exists events,
      trace w' = trace w ++ events
      /\ exists index ns, C index ns /\ forallb (targets index ns) events = true.

(** The index a command line resolves to without a prompt. *)
Definition index_of_cmd (cmd : CommandLine) : string :=
  match opt_index cmd with
  | Some name => if Py.truthy name then name else "default_index"
  | None => "default_index"
  end.

(** The namespace a command line resolves to without a prompt. *)
Definition ns_of_cmd (cmd : CommandLine) : string :=
  match opt_namespace cmd with
  | Some ns => ns_of (Some ns)
  | None => "default_namespace"
  end.

(** Whether a command line resolves the index, and the namespace, without a
    prompt. *)
Definition index_is_set (cmd : CommandLine) : bool :=
  opt_non_interactive cmd || provided (opt_index cmd).

Definition ns_is_set (cmd : CommandLine) : bool :=
  opt_non_interactive cmd
  || match opt_namespace cmd with Some _ => true | None => false end.

(** A computation that, however it ends, has dealt with the indexes of the
    store as [index_choice] says. *)
Definition chooses_index (existing : list string) (c : IO string) : Prop :=
  forall w o w',
    c w = (o, w') ->
    exists events, trace w' = trace w ++ events /\ index_choice existing o events.

Definition is_create (e : event) : bool :=
  match e with EvCreateIndex _ _ _ _ _ => true | _ => false end.

(** Whether an event is a write to, or a query of, an index. *)
Definition is_target_call (e : event) : bool :=
  match e with
  | EvUpsert _ _ _ | EvQuery _ _ _ _ => true
  | _ => false
  end.

(** ** Further sample collaborators *)

(** [env] with a store that answers writes otherwise. *)
Definition with_index_upsert (env : Env)
    (f : string -> list vector -> string -> result unit) : Env :=
  {| getenv := getenv env;
     isdir := isdir env;
     access_R_OK := access_R_OK env;
     walk := walk env;
     path_join := path_join env;
     splitext_ext := splitext_ext env;
     get_encoding := get_encoding env;
     PyPDF2 := PyPDF2 env;
     docx := docx env;
     read_text := read_text env;
     open_rb := open_rb env;
     PdfReader_pages := PdfReader_pages env;
     docx_paragraphs := docx_paragraphs env;
     list_indexes_names := list_indexes_names env;
     create_index := create_index env;
     embeddings_create := embeddings_create env;
     index_upsert := f;
     index_query := index_query env |}.

(** A store that refuses the batch that holds [doc3]. *)
Definition refusing_env : Env :=
  with_index_upsert sample_env (fun _ batch _ =>
    if existsb (fun v => vector_id v =? "doc3") batch
    then inl (Exception "write refused")
    else inr tt).

(** The progress line of the batch of number [j], counted from 0, of [total]. *)
Definition progress_line (total : Z) (j : nat) : string :=
  fstr ["Upserted batch "; Py.str_of_int (Z.of_nat j + 1); " of "; Py.str_of_int total].

(** ** Query sessions *)

(** The lines of standard input of a session at the query prompt: for each
    round the answer at the prompt and the query, then the answer that ends
    the session. *)
Definition session (rounds : list (string * string)) (bye : string) : list string :=
  flat_map (fun '(choice, query) => [choice; query]) rounds ++ [bye].

(** The events of one round of the query loop for the query [query], when
    the provider answers the vector [v] first and the store answers
    [matches]. *)
Definition round_events (index ns : string) (query : string) (v : embedding)
    (matches : list query_match) : list event :=
  [EvInput "Would you like to (q)uery the index or (e)xit? [q/e]: ";
   EvInput "Enter your query: ";
   EvEmbed "text-embedding-3-large" [Py.strip query];
   EvQuery index ns v 3;
   EvPrint (String.append newline "Top Results:")]
  ++ map (fun m => EvPrintMatch (match_text m) (match_score m)) matches.

(** [sample_env] with a store that answers every query with one match. *)
Definition answering_env : Env :=
  {| getenv := getenv sample_env;
     isdir := isdir sample_env;
     access_R_OK := access_R_OK sample_env;
     walk := walk sample_env;
     path_join := path_join sample_env;
     splitext_ext := splitext_ext sample_env;
     get_encoding := get_encoding sample_env;
     PyPDF2 := PyPDF2 sample_env;
     docx := docx sample_env;
     read_text := read_text sample_env;
     open_rb := open_rb sample_env;
     PdfReader_pages := PdfReader_pages sample_env;
     docx_paragraphs := docx_paragraphs sample_env;
     list_indexes_names := list_indexes_names sample_env;
     create_index := create_index sample_env;
     embeddings_create := embeddings_create sample_env;
     index_upsert := index_upsert sample_env;
     index_query := fun _ _ _ _ =>
       inr [{| match_text := "alpha"; match_score := 0.75%float |}] |}.

(** ** The parameters of the remote calls *)

(** Whether a remote call carries the parameters the script fixes: the
    embedding model, the number of matches asked of a query, and the
    dimension, metric, cloud and region of a new index. *)
Definition has_fixed_parameters (e : event) : bool :=
  match e with
  | EvEmbed model _ => model =? "text-embedding-3-large"
  | EvQuery _ _ _ top_k => (top_k =? 3)%Z
  | EvCreateIndex _ dimension metric cloud region =>
      (dimension =? 3072)%Z && (metric =? "cosine") && (cloud =? "aws")
      && (region =? "us-east-1")
  | _ => true
  end.

(** The closing line of [upsert_data]. *)
Definition closing_line (count : Z) (index_option : option string) (ns : string)
    : string :=
  String.append
    (fstr ["Successfully upserted "; Py.str_of_int count;
           " documents into index '"; str_of_opt index_option; "'"])
    (if Py.truthy ns then fstr [" under namespace '"; ns; "'."] else ".").

(** The command line [--directory <d> --non-interactive], without [--index]. *)
Definition bare_cmd (d : string) : CommandLine :=
  {| opt_index := None;
     opt_namespace := None;
     opt_directory := Some d;
     opt_non_interactive := true |}.

(** ** The exit status of a run *)

(** The exit status of a run on a command line: 0 for the help, 2 for a
    command line argparse rejects, 1 for every command line it accepts. *)
Definition status_of (argv : Argv) : Z :=
  match argv with
  | Accepted _ => 1
  | HelpRequested _ => 0
  | Rejected _ => 2
  end.

(** What a run on an accepted command line may leave uncaught: an
    exception, or [SystemExit] with code 1. *)
Definition exits_one (e : exn) : Prop :=
  match e with
  | SystemExit code => code = 1%Z
  | Exc _ => True
  end.

(** * Properties *)

(** ** White space *)

(** [strip] removes the blanks of Python, those outside ASCII included: a
    no-break space, a space, an em space and a tab around [a b], whose inner
    space stays; and it leaves a zero-width space, which is no blank. *)
Example strip_blanks :
  Py.strip (string_of_bytes [194; 160; 32; 97; 32; 98; 226; 128; 131; 9]) = "a b"
  /\ Py.strip (string_of_bytes [226; 128; 139]) = string_of_bytes [226; 128; 139]
  /\ Py.strip (string_of_bytes [227; 128; 128; 194; 133]) = "".
Proof. repeat split. Qed.

(** ** Arithmetic of the number of batches *)

Lemma ceil_div_bounds n b :
  0 < b -> 0 <= n ->
  0 <= ceil_div n b /\ n <= ceil_div n b * b < n + b.
Proof.
  intros Hb Hn. unfold ceil_div.
  pose proof (Z.div_mod (n + b - 1) b ltac:(lia)) as Hdm.
  pose proof (Z.mod_pos_bound (n + b - 1) b Hb) as Hm.
  split; [apply Z.div_pos; lia | nia].
Qed.

(** The size of the last batch: what is left after the full batches. *)
Lemma last_batch_size n b :
  0 < b -> 0 < n ->
  n - (ceil_div n b - 1) * b = (if n mod b =? 0 then b else n mod b)%Z.
Proof.
  intros Hb Hn.
  destruct (ceil_div_bounds n b Hb ltac:(lia)) as [H0 H1].
  pose proof (Z.div_mod n b ltac:(lia)) as Hdm.
  pose proof (Z.mod_pos_bound n b Hb) as Hm.
  destruct (Z.eqb_spec (n mod b) 0) as [E|E].
  - assert (ceil_div n b = n / b) by nia. nia.
  - assert (ceil_div n b = n / b + 1) by nia. nia.
Qed.

Lemma nth_error_map_seq {B : Type} (f : nat -> B) count k y :
  nth_error (map f (seq 0 count)) k = Some y -> (k < count)%nat /\ y = f k.
Proof.
  intros H.
  assert (k < count)%nat as Hk.
  { rewrite <- (length_seq count 0), <- (length_map f). apply nth_error_Some. congruence. }
  split; [assumption|].
  rewrite nth_error_map, nth_error_nth' with (d := O) in H by (rewrite length_seq; lia).
  rewrite seq_nth in H by lia. simpl in H. congruence.
Qed.

(** ** Slices of a list *)

Section Slices.

Context {A : Type}.
Implicit Types (l : list A) (b i : Z) (k count : nat).

Lemma len_nonneg l : 0 <= Py.len l.
Proof. unfold Py.len. lia. Qed.

Lemma firstn_plus (a c : nat) l :
  firstn (a + c) l = firstn a l ++ firstn c (skipn a l).
Proof.
  revert l. induction a as [|a IH]; intros l; simpl.
  - reflexivity.
  - destruct l as [|x l]; simpl.
    + now rewrite firstn_nil.
    + now rewrite IH.
Qed.

(** A slice [l[i : i + b]] with [i] and [b] not negative is a prefix of a
    suffix. *)
Lemma slice_window l i b :
  0 <= i -> 0 <= b ->
  Py.slice l i (i + b) = firstn (Z.to_nat b) (skipn (Z.to_nat i) l).
Proof.
  intros Hi Hb. unfold Py.slice, Py.slice_index.
  pose proof (len_nonneg l) as Hn.
  destruct (Z.ltb_spec i 0); [lia|].
  destruct (Z.ltb_spec (i + b) 0); [lia|].
  destruct (Z.le_gt_cases i (Py.len l)) as [Hle|Hgt].
  - rewrite (Z.min_l i) by lia.
    destruct (Z.le_gt_cases (i + b) (Py.len l)) as [Hle'|Hgt'].
    + rewrite Z.min_l by lia. f_equal. lia.
    + rewrite Z.min_r by lia.
      rewrite !firstn_all2; try reflexivity;
        rewrite length_skipn; unfold Py.len in *; lia.
  - rewrite !Z.min_r by lia.
    rewrite !skipn_all2 by (unfold Py.len in *; lia).
    now rewrite !firstn_nil.
Qed.

Lemma slice_window_len l i b :
  0 <= i -> 0 <= b -> i <= Py.len l ->
  Py.len (Py.slice l i (i + b)) = Z.min b (Py.len l - i).
Proof.
  intros Hi Hb Hle. rewrite slice_window by assumption.
  unfold Py.len in *. rewrite length_firstn, length_skipn. lia.
Qed.

Lemma concat_windows_of l b count :
  0 < b ->
  concat (windows_of l b count) = firstn (count * Z.to_nat b) l.
Proof.
  intros Hb. unfold windows_of. induction count as [|c IH].
  - reflexivity.
  - rewrite seq_S, map_app, concat_app, IH. simpl.
    rewrite app_nil_r, slice_window by lia.
    replace (Z.to_nat b + c * Z.to_nat b)%nat with (c * Z.to_nat b + Z.to_nat b)%nat by lia.
    rewrite firstn_plus. do 2 f_equal.
    rewrite Z2Nat.inj_mul, Nat2Z.id by lia. reflexivity.
Qed.

(** The [k]-th slice exists exactly when it starts inside the list. *)
Lemma window_count_lt l b k :
  0 < b -> (k < window_count l b)%nat <-> Z.of_nat k * b < Py.len l.
Proof.
  intros Hb. unfold window_count.
  destruct (ceil_div_bounds (Py.len l) b Hb (len_nonneg l)) as [H0 H1].
  split; intros H.
  - assert (Z.of_nat k <= ceil_div (Py.len l) b - 1) by lia. nia.
  - assert (Z.of_nat k < ceil_div (Py.len l) b) by nia. lia.
Qed.

Lemma window_count_le_length l b :
  0 < b -> (window_count l b <= List.length l)%nat.
Proof.
  intros Hb. unfold window_count.
  destruct (ceil_div_bounds (Py.len l) b Hb (len_nonneg l)) as [H0 H1].
  pose proof (len_nonneg l) as Hn.
  assert (ceil_div (Py.len l) b <= Py.len l) as Hle.
  { destruct (Z.eq_dec (ceil_div (Py.len l) b) 0) as [E|E]; [lia|].
    assert ((ceil_div (Py.len l) b - 1) * 1 <= (ceil_div (Py.len l) b - 1) * b)
      by (apply Z.mul_le_mono_nonneg_l; lia).
    lia. }
  unfold Py.len in *. lia.
Qed.

Lemma window_count_Z l b :
  0 < b -> Z.of_nat (window_count l b) = ceil_div (Py.len l) b.
Proof.
  intros Hb. unfold window_count.
  destruct (ceil_div_bounds (Py.len l) b Hb (len_nonneg l)) as [H0 _]. lia.
Qed.

(** The length of the [k]-th slice: [b] for every slice but the last, which
    holds what is left, [len(l) mod b] elements or [b] when that is zero. *)
Lemma window_length l b k :
  0 < b -> (k < window_count l b)%nat ->
  let w := Py.slice l (Z.of_nat k * b) (Z.of_nat k * b + b) in
  if (Z.of_nat k + 1 <? Z.of_nat (window_count l b))%Z
  then Py.len w = b
  else 0 < Py.len w <= b
       /\ Z.of_nat k * b + Py.len w = Py.len l
       /\ Py.len w = (if Py.len l mod b =? 0 then b else Py.len l mod b)%Z.
Proof.
  intros Hb Hk w.
  pose proof (proj1 (window_count_lt l b k Hb) Hk) as Hstart.
  assert (Py.len w = Z.min b (Py.len l - Z.of_nat k * b)) as Hw
      by (apply slice_window_len; lia).
  destruct (Z.ltb_spec (Z.of_nat k + 1) (Z.of_nat (window_count l b))) as [Hlt|Hge].
  - assert (S k < window_count l b)%nat as Hk' by lia.
    apply (window_count_lt l b (S k) Hb) in Hk'. lia.
  - assert (~ (S k < window_count l b)%nat) as Hk' by lia.
    rewrite (window_count_lt l b (S k) Hb) in Hk'.
    assert (Z.of_nat k = ceil_div (Py.len l) b - 1) as Hlast
        by (rewrite <- window_count_Z by assumption; lia).
    pose proof (last_batch_size (Py.len l) b Hb ltac:(lia)) as Hsize.
    rewrite <- Hlast in Hsize. lia.
Qed.

(** The slices of a list put end to end are the list. *)
Lemma concat_all_windows l b :
  0 < b -> concat (windows_of l b (window_count l b)) = l.
Proof.
  intros Hb.
  destruct (ceil_div_bounds (Py.len l) b Hb (len_nonneg l)) as [Hc0 Hc1].
  rewrite concat_windows_of by assumption.
  apply firstn_all2. unfold window_count.
  assert (Z.of_nat (List.length l)
          <= Z.of_nat (Z.to_nat (ceil_div (Py.len l) b) * Z.to_nat b)).
  { rewrite Nat2Z.inj_mul, !Z2Nat.id by lia. unfold Py.len in *. lia. }
  lia.
Qed.

(** For a positive step, [range(0, n, step)] is [0, step, 2 step, ...], one
    start per slice. *)
Lemma range_slices l b :
  0 < b ->
  Py.range 0 (Py.len l) b
  = Some (map (fun k => Z.of_nat k * b) (seq 0 (window_count l b))).
Proof.
  intros Hb. unfold Py.range, window_count, ceil_div.
  destruct (Z.eqb_spec b 0); [lia|].
  destruct (Z.ltb_spec 0 b); [|lia].
  rewrite Z.sub_0_r. reflexivity.
Qed.

(** For a negative step, [range(0, n, step)] is empty. *)
Lemma range_negative l b :
  b < 0 -> Py.range 0 (Py.len l) b = Some [].
Proof.
  intros Hb. unfold Py.range.
  destruct (Z.eqb_spec b 0); [lia|].
  destruct (Z.ltb_spec 0 b); [lia|].
  pose proof (len_nonneg l) as Hn.
  assert ((0 - Py.len l - b - 1) / - b <= 0) as Hq.
  { destruct (Z.le_gt_cases 0 (0 - Py.len l - b - 1)).
    - rewrite Z.div_small by lia. lia.
    - assert ((0 - Py.len l - b - 1) / - b < 0) by (apply Z.div_lt_upper_bound; lia).
      lia. }
  replace (Z.to_nat ((0 - Py.len l - b - 1) / - b)) with O by lia.
  reflexivity.
Qed.

End Slices.

(** ** The chunker *)

Section Chunker.

Variable enc : Encoding.

(** [chunk_loop] decodes, one by one, the windows [chunk_windows] records. *)
Lemma chunk_loop_windows fuel tokens M :
  forall start chunks,
    chunk_loop fuel enc tokens M start chunks
    = option_map
        (fun ws => chunks ++ map (fun w => decode enc (snd w)) ws)
        (chunk_windows fuel tokens M start).
Proof.
  induction fuel as [|fuel IH]; intros start chunks; simpl.
  - reflexivity.
  - destruct (start <? Py.len tokens)%Z.
    + rewrite IH. destruct (chunk_windows fuel tokens M (start + M)) as [ws|]; simpl.
      * now rewrite <- app_assoc.
      * reflexivity.
    + simpl. now rewrite app_nil_r.
Qed.

(** With a positive [max_tokens] the loop visits the starts [k * max_tokens]
    in turn and ends once enough fuel is given. *)
Lemma chunk_windows_from tokens M :
  0 < M ->
  forall fuel k,
    (k <= window_count tokens M)%nat ->
    (window_count tokens M - k < fuel)%nat ->
    chunk_windows fuel tokens M (Z.of_nat k * M)
    = Some (map (fun j => (Z.of_nat j * M,
                           Py.slice tokens (Z.of_nat j * M) (Z.of_nat j * M + M)))
                (seq k (window_count tokens M - k))).
Proof.
  intros HM. induction fuel as [|fuel IH]; intros k Hk Hfuel; [lia|].
  simpl. destruct (Z.ltb_spec (Z.of_nat k * M) (Py.len tokens)) as [Hlt|Hge].
  - apply window_count_lt in Hlt; [|assumption].
    replace (Z.of_nat k * M + M) with (Z.of_nat (S k) * M) by lia.
    rewrite IH by lia.
    replace (window_count tokens M - k)%nat
      with (S (window_count tokens M - S k)) by lia.
    rewrite <- cons_seq. cbn [map option_map].
    replace (Z.of_nat (S k) * M) with (Z.of_nat k * M + M) by lia.
    reflexivity.
  - assert (~ (k < window_count tokens M)%nat) as Hnot
        by (rewrite window_count_lt by assumption; lia).
    replace (window_count tokens M - k)%nat with O by lia. reflexivity.
Qed.

(** The windows of a whole run of the loop. *)
Lemma chunk_windows_run tokens M :
  0 < M ->
  chunk_windows (S (List.length tokens)) tokens M 0
  = Some (map (fun j => (Z.of_nat j * M,
                         Py.slice tokens (Z.of_nat j * M) (Z.of_nat j * M + M)))
              (seq 0 (window_count tokens M))).
Proof.
  intros HM. pose proof (window_count_le_length tokens M HM).
  pose proof (chunk_windows_from tokens M HM (S (List.length tokens)) 0) as H0.
  simpl Z.of_nat in H0. rewrite Z.mul_0_l, Nat.sub_0_r in H0.
  apply H0; lia.
Qed.

(** What a whole run of the loop returns. *)
Lemma chunk_loop_run tokens M :
  0 < M ->
  chunk_loop (S (List.length tokens)) enc tokens M 0 []
  = Some (map (decode enc) (windows_of tokens M (window_count tokens M))).
Proof.
  intros HM. rewrite chunk_loop_windows, chunk_windows_run by assumption.
  simpl. unfold windows_of. now rewrite !map_map.
Qed.

(** Every window holds at most [max_tokens] tokens. *)
Lemma windows_bounded (tokens : list token) (M : Z) :
  0 < M ->
  Forall (fun w => Py.len w <= M) (windows_of tokens M (window_count tokens M)).
Proof.
  intros HM. apply Forall_forall. intros w Hin.
  apply In_nth_error in Hin. destruct Hin as [k Hk].
  apply nth_error_map_seq in Hk. destruct Hk as [Hk ->].
  pose proof (window_length tokens M k HM Hk) as Hlen. cbv zeta in Hlen.
  destruct (Z.of_nat k + 1 <? Z.of_nat (window_count tokens M))%Z; lia.
Qed.

End Chunker.

(** Every call of the running [chunk_text] ends in the [NameError] of
    [tokenize_text], with no effect. *)
Lemma chunk_text_name_error (env : Env) (text : string) (max_tokens : Z) (w : world) :
  chunk_text env text max_tokens w = (Raise (Exc (NameError "tokenize_text")), w).
Proof. reflexivity. Qed.

(** C5.  The running [chunk_text] raises [NameError] on every text, the
    empty text and every text within the limit included: [tokenize_text] is
    not bound.  Its first definition, which no call reaches, returns a text
    of at most [max_tokens] tokens as the single chunk, unchanged. *)
Theorem chunk_text_within_limit_raises (env : Env) (T : string) (M : Z) :
  (forall w : world,
      chunk_text env T M w = (Raise (Exc (NameError "tokenize_text")), w))
  /\ (forall w : world,
        chunk_text env "" M w = (Raise (Exc (NameError "tokenize_text")), w))
  /\ (Py.len (encode (get_encoding env "cl100k_base") T) <= M ->
      chunk_text_shadowed env T M = Some [T]).
Proof.
  split; [|split].
  - intros w. apply chunk_text_name_error.
  - intros w. apply chunk_text_name_error.
  - intros Hle. unfold chunk_text_shadowed.
    destruct (Z.leb_spec (Py.len (encode (get_encoding env "cl100k_base") T)) M);
      [reflexivity | lia].
Qed.

(** C6.  The running [chunk_text] raises [NameError] before its loop: no
    window is cut from any text.  The loop itself, given a token sequence
    and a positive [max_tokens], decodes the consecutive slices
    [tokens[k*M : k*M + M]]: each holds exactly [M] tokens but the last,
    which is not empty and ends at [len(tokens)], and their concatenation
    is the token sequence. *)
Theorem chunk_text_windows_unreached (env : Env) (T : string) (M : Z) :
  (forall w : world,
      chunk_text env T M w = (Raise (Exc (NameError "tokenize_text")), w))
  /\ forall (enc : Encoding) (tokens : list token),
       0 < M ->
       exists windows : list (Z * list token),
         chunk_windows (S (List.length tokens)) tokens M 0 = Some windows
         /\ chunk_loop (S (List.length tokens)) enc tokens M 0 []
            = Some (map (fun w => decode enc (snd w)) windows)
         /\ concat (map snd windows) = tokens
         /\ Py.len windows = ceil_div (Py.len tokens) M
         /\ forall (k : nat) (start : Z) (w : list token),
              nth_error windows k = Some (start, w) ->
              start = Z.of_nat k * M
              /\ w = Py.slice tokens start (start + M)
              /\ if (Z.of_nat k + 1 <? Py.len windows)%Z
                 then Py.len w = M
                 else 0 < Py.len w <= M /\ start + Py.len w = Py.len tokens.
Proof.
  split; [intros w; apply chunk_text_name_error|].
  intros enc tokens HM.
  pose proof (chunk_windows_run tokens M HM) as Hrun.
  destruct (ceil_div_bounds (Py.len tokens) M HM (len_nonneg tokens)) as [Hc0 Hc1].
  eexists. split; [exact Hrun|]. repeat split.
  - rewrite chunk_loop_run by assumption.
    unfold windows_of. now rewrite !map_map.
  - rewrite map_map. cbn [snd]. apply concat_all_windows. assumption.
  - unfold Py.len at 1. rewrite length_map, length_seq.
    unfold window_count. lia.
  - apply nth_error_map_seq in H. destruct H as [_ H]. congruence.
  - apply nth_error_map_seq in H. destruct H as [_ H].
    injection H as -> ->. reflexivity.
  - apply nth_error_map_seq in H. destruct H as [Hk H].
    injection H as -> ->.
    unfold Py.len at 1. rewrite length_map, length_seq.
    pose proof (window_length tokens M k HM Hk) as Hlen. cbv zeta in Hlen.
    destruct (Z.of_nat k + 1 <? Z.of_nat (window_count tokens M))%Z;
      [exact Hlen | tauto].
Qed.

(** C2.  The running [chunk_text] raises [NameError] for every text and
    every [max_tokens]: it returns no chunk whose tokens could be counted.
    Its first definition, which no call reaches, returns for a positive
    [max_tokens] chunks that come one for one from windows of at most
    [max_tokens] tokens of the encoded text. *)
Theorem chunk_text_returns_no_chunk (env : Env) (T : string) (M : Z) :
  (forall w : world,
      chunk_text env T M w = (Raise (Exc (NameError "tokenize_text")), w))
  /\ (0 < M ->
      exists (chunks : list string) (windows : list (list token)),
        chunk_text_shadowed env T M = Some chunks
        /\ Forall (fun w => Py.len w <= M) windows
        /\ concat windows = encode (get_encoding env "cl100k_base") T
        /\ (chunks = [T] /\ windows = [encode (get_encoding env "cl100k_base") T]
            \/ chunks = map (decode (get_encoding env "cl100k_base")) windows)).
Proof.
  split; [intros w; apply chunk_text_name_error|].
  intros HM. set (enc := get_encoding env "cl100k_base").
  set (tokens := encode enc T).
  destruct (Z.le_gt_cases (Py.len tokens) M) as [Hle|Hgt].
  - exists [T], [tokens]. repeat split.
    + unfold chunk_text_shadowed. fold enc tokens.
      destruct (Z.leb_spec (Py.len tokens) M); [reflexivity | lia].
    + constructor; [assumption | constructor].
    + simpl. apply app_nil_r.
    + left. split; reflexivity.
  - exists (map (decode enc) (windows_of tokens M (window_count tokens M))),
           (windows_of tokens M (window_count tokens M)).
    repeat split.
    + unfold chunk_text_shadowed. fold enc tokens.
      destruct (Z.leb_spec (Py.len tokens) M); [lia|].
      apply chunk_loop_run. assumption.
    + apply windows_bounded. assumption.
    + apply concat_all_windows. assumption.
    + right. reflexivity.
Qed.

(** The running [chunk_text] on the empty text and on a short text. *)
Example chunk_text_fails :
  chunk_text sample_env "" 1000 (initial_world [])
  = (Raise (Exc (NameError "tokenize_text")), initial_world [])
  /\ chunk_text sample_env "hello world" 4 (initial_world [])
     = (Raise (Exc (NameError "tokenize_text")), initial_world []).
Proof. split; reflexivity. Qed.

(** ** Computations that only print *)

Lemma world_eta (w : world) : {| stdin := stdin w; trace := trace w |} = w.
Proof. destruct w. reflexivity. Qed.

Lemma quiet_ret {A : Type} (a : A) : ends_quietly (ret a) (Ret a).
Proof.
  exists []. intros w. unfold ret. simpl. now rewrite app_nil_r, world_eta.
Qed.

Lemma quiet_raise {A : Type} (e : exn) : ends_quietly (@raise A e) (Raise e).
Proof.
  exists []. intros w. unfold raise. simpl. now rewrite app_nil_r, world_eta.
Qed.

Lemma quiet_print (line : string) : ends_quietly (print line) (Ret tt).
Proof. exists [line]. intros w. reflexivity. Qed.

Lemma quiet_bind {A B : Type} (c : IO A) (k : A -> IO B) (a : A) (o : outcome B) :
  ends_quietly c (Ret a) -> ends_quietly (k a) o -> ends_quietly (bind c k) o.
Proof.
  intros [l1 H1] [l2 H2]. exists (l1 ++ l2). intros w.
  unfold bind. rewrite H1, H2. simpl. now rewrite map_app, app_assoc.
Qed.

Lemma quiet_bind_raise {A B : Type} (c : IO A) (k : A -> IO B) (e : exn) :
  ends_quietly c (Raise e) -> ends_quietly (bind c k) (Raise e).
Proof.
  intros [l1 H1]. exists l1. intros w. unfold bind. now rewrite H1.
Qed.

Lemma quiet_run {A : Type} (c : IO A) (o : outcome A) (w : world) :
  ends_quietly c o ->
  exists lines, c w = (o, {| stdin := stdin w; trace := trace w ++ map EvPrint lines |}).
Proof. intros [lines H]. exists lines. apply H. Qed.

(** ** File processing *)

Lemma for_each_app {X S : Type} (body : X -> S -> IO S) (l1 l2 : list X) :
  forall s w,
    for_each (l1 ++ l2) body s w = bind (for_each l1 body s) (for_each l2 body) w.
Proof.
  induction l1 as [|x l1 IH]; intros s w; simpl.
  - reflexivity.
  - unfold bind. destruct (body x s w) as [[s'|e|] w1]; [|reflexivity ..].
    rewrite IH. reflexivity.
Qed.

Lemma for_each_map {X Y S : Type} (f : X -> Y) (body : Y -> S -> IO S) (l : list X) :
  forall s w, for_each (map f l) body s w = for_each l (fun x => body (f x)) s w.
Proof.
  induction l as [|x l IH]; intros s w; simpl; [reflexivity|].
  unfold bind. destruct (body (f x) s w) as [[s'|e|] w1]; [apply IH | reflexivity ..].
Qed.

Lemma bind_ext {A B : Type} (c c' : IO A) (k k' : A -> IO B) (w : world) :
  c w = c' w -> (forall a w1, k a w1 = k' a w1) -> bind c k w = bind c' k' w.
Proof.
  intros Hc Hk. unfold bind. rewrite Hc.
  destruct (c' w) as [[a|e|] w1]; [apply Hk | reflexivity ..].
Qed.

(** A list whose elements all pass a test, or the elements before the first
    one that does not. *)
Lemma first_failure {X : Type} (f : X -> bool) (l : list X) :
  (forall x, In x l -> f x = true)
  \/ exists l1 x l2,
       l = l1 ++ x :: l2 /\ (forall y, In y l1 -> f y = true) /\ f x = false.
Proof.
  induction l as [|x l IH].
  - left. intros x [].
  - destruct (f x) eqn:Hx.
    + destruct IH as [Hall | (l1 & y & l2 & -> & Hl1 & Hy)].
      * left. intros z [<- | Hz]; auto.
      * right. exists (x :: l1), y, l2. split; [reflexivity|]. split; [|exact Hy].
        intros z [<- | Hz]; auto.
    + right. exists [], x, l. split; [reflexivity|]. split; [intros y [] | exact Hx].
Qed.

Section Traversal.

Variable env : Env.

Lemma quiet_except filepath e :
  ends_quietly (process_file_except filepath e) (Ret None).
Proof.
  destruct e; simpl; (eapply quiet_bind; [apply quiet_print | apply quiet_ret]).
Qed.

Lemma extract_pages_error pages :
  existsb is_error pages = true ->
  forall text, exists e, extract_pages pages text = inl e.
Proof.
  induction pages as [|[e|extracted] pages IH]; simpl; intros H text.
  - discriminate.
  - eauto.
  - apply IH. exact H.
Qed.

Lemma extract_pages_text pages :
  existsb is_error pages = false ->
  forall text, exists text', extract_pages pages text = inr text'.
Proof.
  induction pages as [|[e|extracted] pages IH]; simpl; intros H text.
  - eauto.
  - discriminate.
  - apply IH. exact H.
Qed.

(** What [process_file] does once the [try] block has left a text: the call
    of [chunk_text] raises. *)
Lemma process_file_after_try (text : string) (filepath : string) (w : world) :
  (chunks <- chunk_text env text 1000 ;;
   print (fstr ["Processed '"; filepath; "' into ";
                Py.str_of_int (Py.len chunks); " chunk(s)."]) ;;
   ret chunks) w
  = (Raise (Exc (NameError "tokenize_text")), w).
Proof. reflexivity. Qed.

(** A file whose extraction fails: [process_file] prints one line and
    returns the empty list. *)
Lemma process_file_skips filepath :
  extraction_fails env filepath = true ->
  exists line,
    forall w, process_file env filepath w
              = (Ret [], {| stdin := stdin w; trace := trace w ++ [EvPrint line] |}).
Proof.
  unfold extraction_fails, process_file.
  assert (forall e, exists line, forall w,
            (extracted <- process_file_except filepath e ;;
             match extracted with
             | None => ret []
             | Some text =>
                 chunks <- chunk_text env text 1000 ;;
                 print (fstr ["Processed '"; filepath; "' into ";
                              Py.str_of_int (Py.len chunks); " chunk(s)."]) ;;
                 ret chunks
             end) w
            = (Ret [], {| stdin := stdin w; trace := trace w ++ [EvPrint line] |}))
    as Hexcept.
  { intros e. destruct e; eexists; intros w; reflexivity. }
  destruct (Py.mem _ [".txt"; ".md"; ".py"; ".json"; ".csv"]).
  { destruct (read_text env filepath) as [e|text]; simpl; intros H;
      [apply Hexcept | discriminate]. }
  destruct ((_ =? ".pdf") && PyPDF2 env).
  { destruct (open_rb env filepath) as [e|[]]; simpl; [intros _; apply Hexcept|].
    destruct (PdfReader_pages env filepath) as [e|pages]; simpl.
    - intros _. eexists. intros w. reflexivity.
    - intros H. destruct (extract_pages_error pages H "") as [e ->].
      eexists. intros w. reflexivity. }
  destruct (Py.mem _ [".docx"] && docx env).
  { destruct (docx_paragraphs env filepath) as [e|paragraphs]; simpl; intros H;
      [|discriminate]. eexists. intros w. reflexivity. }
  destruct (read_text env filepath) as [e|text]; simpl; intros H;
    [apply Hexcept | discriminate].
Qed.

(** A file whose text is read: [process_file] ends in the [NameError] of
    [chunk_text], having printed nothing. *)
Lemma process_file_name_error filepath :
  extraction_fails env filepath = false ->
  forall w, process_file env filepath w = (Raise (Exc (NameError "tokenize_text")), w).
Proof.
  unfold extraction_fails, process_file.
  destruct (Py.mem _ [".txt"; ".md"; ".py"; ".json"; ".csv"]).
  { destruct (read_text env filepath) as [e|text]; simpl; intros H w;
      [discriminate | reflexivity]. }
  destruct ((_ =? ".pdf") && PyPDF2 env).
  { destruct (open_rb env filepath) as [e|[]]; simpl; [discriminate|].
    destruct (PdfReader_pages env filepath) as [e|pages]; simpl; [discriminate|].
    intros H w. destruct (extract_pages_text pages H "") as [text ->]. reflexivity. }
  destruct (Py.mem _ [".docx"] && docx env).
  { destruct (docx_paragraphs env filepath) as [e|paragraphs]; simpl; intros H w;
      [discriminate | reflexivity]. }
  destruct (read_text env filepath) as [e|text]; simpl; intros H w;
    [discriminate | reflexivity].
Qed.

(** The two nested loops of [process_directory] visit the files of
    [walk_paths] in order. *)
Lemma process_directory_visits directory w :
  process_directory env directory w
  = (locals <- visit_files env (walk_paths env directory) ([], 1) ;;
     ret (fst locals)) w.
Proof.
  unfold process_directory. apply bind_ext; [|reflexivity].
  unfold walk_paths, visit_files.
  generalize (@nil document, 1).
  revert w. induction (walk env directory) as [|[[root dirs] files] entries IH];
    intros w locals; [reflexivity|].
  cbn [for_each flat_map]. rewrite for_each_app.
  apply bind_ext; [|intros locals' w1; apply IH].
  now rewrite for_each_map.
Qed.

(** The files whose extraction fails leave the local variables of the
    traversal as they were: each prints its line, and the traversal goes on
    with the next file. *)
Lemma visit_files_skips (failing : list string) :
  (forall p, In p failing -> extraction_fails env p = true) ->
  exists lines,
    List.length lines = List.length failing
    /\ forall rest locals w,
         visit_files env (failing ++ rest) locals w
         = visit_files env rest locals
             {| stdin := stdin w; trace := trace w ++ map EvPrint lines |}.
Proof.
  induction failing as [|p failing IH]; intros Hfail.
  - exists []. split; [reflexivity|]. intros rest locals w.
    cbn [app map]. now rewrite app_nil_r, world_eta.
  - destruct (process_file_skips p (Hfail p (or_introl eq_refl))) as [line Hp].
    destruct IH as (lines & Hlen & Hrest); [intros q Hq; apply Hfail; now right|].
    exists (line :: lines). split; [simpl; now rewrite Hlen|].
    intros rest locals w. unfold visit_files at 1. cbn [app for_each].
    unfold bind at 1 2. rewrite Hp. cbn [for_each]. unfold ret at 1.
    fold (visit_files env (failing ++ rest) locals).
    rewrite Hrest. cbn [stdin trace map]. rewrite <- app_assoc. reflexivity.
Qed.

(** The first file whose text is read ends the traversal. *)
Lemma visit_files_name_error p rest locals w :
  extraction_fails env p = false ->
  visit_files env (p :: rest) locals w = (Raise (Exc (NameError "tokenize_text")), w).
Proof.
  intros Hp. unfold visit_files. cbn [for_each]. unfold bind at 1 2.
  now rewrite (process_file_name_error p Hp).
Qed.

(** How [process_directory] ends: it returns the empty list when the
    extraction of every file fails, and raises [NameError] otherwise; in
    both cases it has only printed, the same lines in every state. *)
Lemma process_directory_quiet directory :
  (forall p, In p (walk_paths env directory) -> extraction_fails env p = true)
  /\ ends_quietly (process_directory env directory) (Ret [])
  \/ (exists p, In p (walk_paths env directory) /\ extraction_fails env p = false)
     /\ ends_quietly (process_directory env directory)
                     (Raise (Exc (NameError "tokenize_text"))).
Proof.
  destruct (first_failure (extraction_fails env) (walk_paths env directory))
    as [Hall | (failing & p & rest & Hpaths & Hfailing & Hp)].
  - left. split; [exact Hall|].
    destruct (visit_files_skips (walk_paths env directory) Hall) as (lines & _ & Hrest).
    exists lines. intros w. rewrite process_directory_visits.
    rewrite <- (app_nil_r (walk_paths env directory)).
    unfold bind. rewrite Hrest. reflexivity.
  - right. split.
    { exists p. split; [|exact Hp]. rewrite Hpaths. apply in_or_app. right. now left. }
    destruct (visit_files_skips failing Hfailing) as (lines & _ & Hrest).
    exists lines. intros w. rewrite process_directory_visits, Hpaths.
    unfold bind. rewrite Hrest, visit_files_name_error by exact Hp. reflexivity.
Qed.

End Traversal.

(** C7.  [process_directory] never returns a unit, so it assigns no
    identifier.  It returns, with the empty list, exactly when the
    extraction of every file of the traversal fails; as soon as the text of
    a file is read, the call of [chunk_text] raises [NameError], which
    nothing catches, and the traversal is over. *)
Theorem process_directory_name_error (env : Env) (directory : string) (w : world) :
  exists lines : list string,
    (forall p, In p (walk_paths env directory) -> extraction_fails env p = true)
    /\ process_directory env directory w
       = (Ret [], {| stdin := stdin w; trace := trace w ++ map EvPrint lines |})
    \/ (exists p, In p (walk_paths env directory) /\ extraction_fails env p = false)
       /\ process_directory env directory w
          = (Raise (Exc (NameError "tokenize_text")),
             {| stdin := stdin w; trace := trace w ++ map EvPrint lines |}).
Proof.
  destruct (process_directory_quiet env directory) as [[Hall [lines H]] | [Hp [lines H]]];
    exists lines; [left | right]; (split; [assumption | apply H]).
Qed.

(** The directory of the scenario, a text file, a PDF that cannot be parsed
    and a second text file: the traversal ends at the first file. *)
Example process_directory_sample :
  walk_paths sample_env "docs" = ["docs/a.txt"; "docs/broken.pdf"; "docs/b.md"]
  /\ process_directory sample_env "docs" (initial_world [])
     = (Raise (Exc (NameError "tokenize_text")), initial_world []).
Proof. split; reflexivity. Qed.

(** C10.  A file whose extraction fails makes [process_file] print one line
    and return the empty list, in every state.  The traversal goes on: after
    the files whose extraction failed, [process_directory] is where it
    started, but for one printed line per file, and visits the files that
    follow; when no file follows, it returns the empty list. *)
Theorem extraction_failure_skips_file (env : Env) (directory : string)
    (failing rest : list string) :
  walk_paths env directory = failing ++ rest ->
  (forall p, In p failing -> extraction_fails env p = true) ->
  (forall p, In p failing ->
     exists line, forall w,
       process_file env p w
       = (Ret [], {| stdin := stdin w; trace := trace w ++ [EvPrint line] |}))
  /\ exists lines,
       List.length lines = List.length failing
       /\ (forall w,
             process_directory env directory w
             = (locals <- visit_files env rest ([], 1) ;; ret (fst locals))
                 {| stdin := stdin w; trace := trace w ++ map EvPrint lines |})
       /\ (rest = [] ->
           forall w,
             process_directory env directory w
             = (Ret [], {| stdin := stdin w; trace := trace w ++ map EvPrint lines |})).
Proof.
  intros Hpaths Hfailing. split.
  - intros p Hp. apply process_file_skips, Hfailing, Hp.
  - destruct (visit_files_skips env failing Hfailing) as (lines & Hlen & Hrest).
    exists lines. split; [exact Hlen|].
    assert (forall w,
              process_directory env directory w
              = (locals <- visit_files env rest ([], 1) ;; ret (fst locals))
                  {| stdin := stdin w; trace := trace w ++ map EvPrint lines |}) as Hgo.
    { intros w. rewrite process_directory_visits, Hpaths.
      unfold bind. now rewrite Hrest. }
    split; [exact Hgo|].
    intros -> w. rewrite Hgo. reflexivity.
Qed.

Lemma extraction_failure_skips_file_witness :
  extraction_fails sample_env "mixed/broken.pdf" = true
  /\ (exists line,
        process_file sample_env "mixed/broken.pdf" (initial_world [])
        = (Ret [], {| stdin := []; trace := [EvPrint line] |}))
  /\ exists lines,
       List.length lines = 1%nat
       /\ process_directory sample_env "mixed" (initial_world [])
          = (locals <- visit_files sample_env ["mixed/data.bin"; "mixed/b.md"] ([], 1) ;;
             ret (fst locals))
              {| stdin := []; trace := map EvPrint lines |}.
Proof.
  destruct (extraction_failure_skips_file sample_env "mixed" ["mixed/broken.pdf"]
              ["mixed/data.bin"; "mixed/b.md"] eq_refl)
    as (Hfile & lines & Hlen & Hgo & _).
  { intros p [<- | []]. reflexivity. }
  split; [reflexivity|]. split.
  - destruct (Hfile "mixed/broken.pdf" (or_introl eq_refl)) as [line Hline].
    exists line. apply Hline.
  - exists lines. split; [exact Hlen | apply (Hgo (initial_world []))].
Defined.

(** C10, as stated, fails for a file of a type the script has no reader
    for: it is not skipped but read as text, and [process_file] does not
    return the empty list for it; the files after it are not collected. *)
Lemma unsupported_file_is_read :
  Py.mem (Py.lower (splitext_ext sample_env "mixed/data.bin"))
         [".txt"; ".md"; ".py"; ".json"; ".csv"; ".pdf"; ".docx"] = false
  /\ read_text sample_env "mixed/data.bin" = inr "raw"
  /\ extraction_fails sample_env "mixed/data.bin" = false
  /\ fst (process_file sample_env "mixed/data.bin" (initial_world [])) <> Ret []
  /\ fst (process_directory sample_env "mixed" (initial_world []))
     = Raise (Exc (NameError "tokenize_text")).
Proof.
  split; [reflexivity|]. split; [reflexivity|]. split; [reflexivity|].
  split; [discriminate | reflexivity].
Qed.

(** ** The upsert batcher *)

Lemma upsert_calls_app tr1 tr2 :
  upsert_calls (tr1 ++ tr2) = upsert_calls tr1 ++ upsert_calls tr2.
Proof.
  induction tr1 as [|e tr1 IH]; simpl; [reflexivity|].
  destruct e; simpl; now rewrite IH.
Qed.

Lemma upsert_namespaces_app tr1 tr2 :
  upsert_namespaces (tr1 ++ tr2) = upsert_namespaces tr1 ++ upsert_namespaces tr2.
Proof.
  induction tr1 as [|e tr1 IH]; simpl; [reflexivity|].
  destruct e; simpl; now rewrite IH.
Qed.

(** A loop without local variables whose passes succeed, each adding its
    events to the trace. *)
Lemma for_each_events {X : Type} (body : X -> unit -> IO unit) (events : X -> list event)
    (l : list X) :
  (forall x w, body x tt w
               = (Ret tt, {| stdin := stdin w; trace := trace w ++ events x |})) ->
  forall w, for_each l body tt w
            = (Ret tt, {| stdin := stdin w; trace := trace w ++ flat_map events l |}).
Proof.
  intros Hbody. induction l as [|x l IH]; intros w; simpl.
  - unfold ret. now rewrite app_nil_r, world_eta.
  - unfold bind. rewrite Hbody, IH. simpl. now rewrite <- app_assoc.
Qed.

Section Upsert.

Variable env : Env.
Variables (documents : list document) (index : string) (namespace : option string).
Variables (client : string) (args : Args).
Variable embeddings : list embedding.

Hypothesis embedded :
  embeddings_create env "text-embedding-3-large" (map document_text documents)
  = inr embeddings.
Hypothesis written :
  forall batch, index_upsert env index batch (ns_of namespace) = inr tt.

(** What [upsert_data] does when the provider answers and every write
    succeeds: one embedding call, then one write and one progress line per
    start of the range, then the closing line. *)
Lemma upsert_data_trace (starts : list Z) (w : world) :
  Py.range 0 (Py.len (vectors_of documents embeddings)) (batch_size_of args)
  = Some starts ->
  exists closing,
    upsert_data env documents index namespace client args w
    = (Ret tt,
       {| stdin := stdin w;
          trace := trace w
                   ++ EvEmbed "text-embedding-3-large" (map document_text documents)
                   :: flat_map (pass_events (vectors_of documents embeddings) index (ns_of namespace) (batch_size_of args)) starts ++ [EvPrint closing] |}).
Proof.
  intros Hrange. eexists.
  unfold upsert_data, embed_text, bind at 1 2, emit, lift.
  rewrite embedded. unfold ret at 1. cbn [stdin trace].
  unfold bind at 1. rewrite Hrange. unfold ret at 1.
  unfold bind at 1.
  rewrite (for_each_events _ (pass_events (vectors_of documents embeddings) index
                                           (ns_of namespace) (batch_size_of args))).
  - unfold print, emit. cbn [stdin trace].
    rewrite <- !app_assoc. reflexivity.
  - intros i w0. unfold bind, emit, lift, print, emit. cbn [stdin trace].
    rewrite written. unfold ret. cbn [stdin trace].
    rewrite <- app_assoc. reflexivity.
Qed.

Lemma upsert_calls_passes (starts : list Z) :
  upsert_calls (flat_map (pass_events (vectors_of documents embeddings) index (ns_of namespace) (batch_size_of args)) starts)
  = map (fun i => Py.slice (vectors_of documents embeddings) i (i + batch_size_of args))
        starts.
Proof.
  induction starts as [|i starts IH]; simpl; [reflexivity|]. now rewrite IH.
Qed.

Lemma upsert_namespaces_passes (starts : list Z) :
  upsert_namespaces (flat_map (pass_events (vectors_of documents embeddings) index (ns_of namespace) (batch_size_of args)) starts) = map (fun _ => ns_of namespace) starts.
Proof.
  induction starts as [|i starts IH]; simpl; [reflexivity|]. now rewrite IH.
Qed.

(** With a positive batch size the writes are the slices of the vectors, in
    order, each to the resolved namespace. *)
Lemma upsert_data_writes (w : world) :
  0 < batch_size_of args ->
  exists w',
    upsert_data env documents index namespace client args w = (Ret tt, w')
    /\ stdin w' = stdin w
    /\ upsert_calls (trace w')
       = upsert_calls (trace w)
         ++ windows_of (vectors_of documents embeddings) (batch_size_of args)
                       (window_count (vectors_of documents embeddings)
                                     (batch_size_of args))
    /\ upsert_namespaces (trace w')
       = upsert_namespaces (trace w)
         ++ map (fun _ => ns_of namespace)
                (seq 0 (window_count (vectors_of documents embeddings)
                                     (batch_size_of args))).
Proof.
  intros HB.
  destruct (upsert_data_trace _ w (range_slices _ _ HB)) as [closing Hrun].
  eexists. split; [exact Hrun|]. cbn [stdin trace]. split; [reflexivity|].
  rewrite upsert_calls_app, upsert_namespaces_app.
  cbn [upsert_calls upsert_namespaces].
  rewrite upsert_calls_app, upsert_namespaces_app.
  rewrite upsert_calls_passes, upsert_namespaces_passes. simpl.
  rewrite !app_nil_r, !map_map. split; reflexivity.
Qed.

(** With a negative batch size nothing is written. *)
Lemma upsert_data_negative (w : world) :
  batch_size_of args < 0 ->
  exists w',
    upsert_data env documents index namespace client args w = (Ret tt, w')
    /\ upsert_calls (trace w') = upsert_calls (trace w).
Proof.
  intros HB.
  destruct (upsert_data_trace _ w (range_negative _ _ HB)) as [closing Hrun].
  eexists. split; [exact Hrun|]. cbn [stdin trace].
  rewrite upsert_calls_app. simpl. now rewrite app_nil_r.
Qed.

End Upsert.

Lemma vectors_of_length documents embeddings :
  Py.len (vectors_of documents embeddings)
  = Z.min (Py.len documents) (Py.len embeddings).
Proof.
  unfold vectors_of, Py.len. rewrite length_map, length_combine. lia.
Qed.

Lemma vectors_of_ids documents embeddings :
  map vector_id (vectors_of documents embeddings)
  = map document_id (firstn (List.length embeddings) documents).
Proof.
  unfold vectors_of. rewrite map_map.
  revert embeddings. induction documents as [|d documents IH]; intros [|e embeddings];
    simpl; try reflexivity.
  now rewrite IH.
Qed.

Lemma vectors_of_values documents embeddings :
  map vector_values (vectors_of documents embeddings)
  = firstn (List.length documents) embeddings.
Proof.
  unfold vectors_of. rewrite map_map.
  revert embeddings. induction documents as [|d documents IH]; intros [|e embeddings];
    simpl; try reflexivity.
  now rewrite IH.
Qed.

(** C8.  When the provider answers and every write succeeds, [upsert_data]
    with a positive batch size [B] returns after issuing, one after the
    other and in slice order, exactly [ceil(N / B)] writes for the [N] units
    that carry a vector: the [k]-th write is [vectors[k*B : k*B + B]], of
    size [B] except the last, whose size is [N mod B] when that is not zero
    and [B] otherwise, and the batches put end to end are the units, each
    once.  [N] is the number of documents when the provider answers one
    vector per text. *)
Theorem upsert_data_batches (env : Env) (documents : list document) (index : string)
    (namespace : option string) (client : string) (args : Args)
    (embeddings : list embedding) (w : world) :
  0 < batch_size_of args ->
  embeddings_create env "text-embedding-3-large" (map document_text documents)
  = inr embeddings ->
  (forall batch, index_upsert env index batch (ns_of namespace) = inr tt) ->
  let vectors := vectors_of documents embeddings in
  let N := Py.len vectors in
  let B := batch_size_of args in
  exists (w' : world) (batches : list (list vector)),
    upsert_data env documents index namespace client args w = (Ret tt, w')
    /\ upsert_calls (trace w') = upsert_calls (trace w) ++ batches
    /\ Py.len batches = ceil_div N B
    /\ concat batches = vectors
    /\ (forall (k : nat) (batch : list vector),
          nth_error batches k = Some batch ->
          batch = Py.slice vectors (Z.of_nat k * B) (Z.of_nat k * B + B)
          /\ Py.len batch
             = (if Z.of_nat k + 1 <? Py.len batches then B
                else if N mod B =? 0 then B else N mod B)%Z)
    /\ (List.length embeddings = List.length documents -> N = Py.len documents).
Proof.
  intros HB Hemb Hwrite vectors N B. subst N.
  destruct (upsert_data_writes env documents index namespace client args embeddings
              Hemb Hwrite w HB) as (w' & Hrun & _ & Hcalls & _).
  fold vectors B in Hcalls.
  exists w', (windows_of vectors B (window_count vectors B)).
  split; [exact Hrun|]. split; [exact Hcalls|].
  assert (Py.len (windows_of vectors B (window_count vectors B))
          = ceil_div (Py.len vectors) B) as Hcount.
  { unfold Py.len at 1, windows_of. rewrite length_map, length_seq.
    apply window_count_Z. exact HB. }
  split; [exact Hcount|].
  split; [apply concat_all_windows; exact HB|].
  split.
  - intros k batch Hk. apply nth_error_map_seq in Hk. destruct Hk as [Hk ->].
    split; [reflexivity|].
    pose proof (window_length vectors B k HB Hk) as Hlen. cbv zeta in Hlen.
    rewrite Hcount, <- (window_count_Z vectors B HB).
    destruct (Z.of_nat k + 1 <? Z.of_nat (window_count vectors B))%Z;
      [exact Hlen | apply Hlen].
  - intros Hsame. unfold vectors. rewrite vectors_of_length.
    unfold Py.len. lia.
Qed.


(** C3.  The batch size is 100 for every argument object [parse_args]
    returns, and for every argument object whose [batch_size] is missing,
    [None] or zero; [upsert_data] then writes, without raising, the slices
    of 100 units. *)
Theorem batch_size_default :
  (forall (argv : Argv) (w : world) (args : Args) (w' : world),
      parse_args argv w = (Ret args, w') -> batch_size_of args = 100)
  /\ (forall cmd : CommandLine,
        parse_args (Accepted cmd) = ret (argparse_Namespace cmd)
        /\ batch_size_of (argparse_Namespace cmd) = 100)
  /\ (forall args : Args,
        args_batch_size args = None
        \/ args_batch_size args = Some None
        \/ args_batch_size args = Some (Some 0) ->
        batch_size_of args = 100
        /\ forall (env : Env) (documents : list document) (index : string)
                  (namespace : option string) (client : string)
                  (embeddings : list embedding) (w : world),
             embeddings_create env "text-embedding-3-large"
                               (map document_text documents) = inr embeddings ->
             (forall batch, index_upsert env index batch (ns_of namespace) = inr tt) ->
             exists w' : world,
               upsert_data env documents index namespace client args w = (Ret tt, w')
               /\ upsert_calls (trace w')
                  = upsert_calls (trace w)
                    ++ windows_of (vectors_of documents embeddings) 100
                         (window_count (vectors_of documents embeddings) 100)).
Proof.
  split; [|split; [intros cmd; split; reflexivity|]].
  { intros [cmd|help|message] w args w' H; [|discriminate H ..].
    injection H as <- _. reflexivity. }
  intros args Hcases.
  assert (batch_size_of args = 100) as HB
      by (unfold batch_size_of; destruct Hcases as [-> | [-> | ->]]; reflexivity).
  split; [exact HB|].
  intros env documents index namespace client embeddings w Hemb Hwrite.
  destruct (upsert_data_writes env documents index namespace client args embeddings
              Hemb Hwrite w ltac:(lia)) as (w' & Hrun & _ & Hcalls & _).
  rewrite HB in Hcalls. eauto.
Qed.

(** C4.  A provided empty string is returned as the empty string.  An
    empty answer at the prompt makes the running
    [select_or_create_namespace] return [None], where its first definition
    returns the empty string.  The write path turns [None] into the empty
    string before any write: [upsert_data] does the same with [None] as with
    the empty string, and every write it issues names the empty string. *)
Theorem namespace_resolution :
  (forall (non_interactive : bool) (w : world),
      fst (select_or_create_namespace (Some "") non_interactive w) = Ret (Some ""))
  /\ (forall (line : string) (rest : list string) (tr : list event),
        Py.strip line = "" ->
        fst (select_or_create_namespace None false {| stdin := line :: rest; trace := tr |})
        = Ret None
        /\ fst (select_or_create_namespace_shadowed None false
                  {| stdin := line :: rest; trace := tr |})
           = Ret (Some ""))
  /\ (forall (env : Env) (documents : list document) (index client : string)
             (args : Args),
        upsert_data env documents index None client args
        = upsert_data env documents index (Some "") client args)
  /\ (forall (env : Env) (documents : list document) (index client : string)
             (args : Args) (embeddings : list embedding) (w : world),
        0 < batch_size_of args ->
        embeddings_create env "text-embedding-3-large" (map document_text documents)
        = inr embeddings ->
        (forall batch, index_upsert env index batch "" = inr tt) ->
        exists w' : world,
          upsert_data env documents index None client args w = (Ret tt, w')
          /\ upsert_namespaces (trace w')
             = upsert_namespaces (trace w)
               ++ map (fun _ => "")
                      (seq 0 (window_count (vectors_of documents embeddings)
                                           (batch_size_of args)))).
Proof.
  split; [|split; [|split]].
  - intros non_interactive w. reflexivity.
  - intros line rest tr Hblank. unfold select_or_create_namespace,
      select_or_create_namespace_shadowed, bind, input, ret. cbn [stdin trace fst].
    rewrite Hblank. split; reflexivity.
  - reflexivity.
  - intros env documents index client args embeddings w HB Hemb Hwrite.
    destruct (upsert_data_writes env documents index None client args embeddings
                Hemb Hwrite w HB) as (w' & Hrun & _ & _ & Hns).
    exists w'. split; [exact Hrun | exact Hns].
Qed.

Lemma upsert_data_batches_witness :
  0 < batch_size_of (argparse_Namespace (sample_cmd "docs"))
  /\ exists (w' : world) (batches : list (list vector)),
       upsert_data sample_env (units_from 1 250) "default_index" None "key"
                   (argparse_Namespace (sample_cmd "docs")) (initial_world [])
       = (Ret tt, w')
       /\ upsert_calls (trace w') = batches
       /\ map Py.len batches = [100; 100; 50].
Proof.
  split; [reflexivity|].
  destruct (upsert_data_batches sample_env (units_from 1 250) "default_index" None "key"
              (argparse_Namespace (sample_cmd "docs"))
              (map (fun _ => [0.5%float]) (units_from 1 250)) (initial_world [])
              ltac:(reflexivity)
              ltac:(cbn [embeddings_create sample_env]; now rewrite map_map)
              ltac:(reflexivity))
    as (w' & batches & Hrun & Hcalls & _).
  exists w', batches. split; [exact Hrun|]. split; [exact Hcalls|].
  vm_compute in Hrun. injection Hrun as <-.
  vm_compute in Hcalls. rewrite <- Hcalls. vm_compute. reflexivity.
Defined.



(** C3, as stated, fails: a negative [batch_size] is kept, and the batch
    loop then issues no write for the four units. *)
Lemma negative_batch_size_is_kept :
  batch_size_of (args_with_batch_size (Some (Some (-5)))) = -5
  /\ -5 <> 100
  /\ exists w' : world,
       upsert_data sample_env four_units "default_index" None "key"
                   (args_with_batch_size (Some (Some (-5)))) (initial_world [])
       = (Ret tt, w')
       /\ upsert_calls (trace w') = [].
Proof.
  split; [reflexivity|]. split; [lia|].
  eexists. split; [vm_compute; reflexivity|]. vm_compute. reflexivity.
Qed.

(** C4, as stated, fails: an empty answer at the prompt makes the running
    [select_or_create_namespace] return [None], not the empty string. *)
Lemma empty_answer_gives_none :
  fst (select_or_create_namespace None false (initial_world [""])) = Ret None
  /\ @None string <> Some "".
Proof. split; [reflexivity | discriminate]. Qed.

(** With a batch size of zero the default of 100 is used: 250 units are
    written as batches of 100, 100 and 50. *)
Example batch_size_default_sample :
  map Py.len
      (upsert_calls (trace (snd (upsert_data sample_env (units_from 1 250)
                                   "default_index" None "key"
                                   (args_with_batch_size (Some (Some 0)))
                                   (initial_world [])))))
  = [100; 100; 50].
Proof. vm_compute. reflexivity. Qed.

(** ** The run without documents *)

Lemma local_ret {A : Type} (a : A) : stays_local (ret a).
Proof.
  intros w o w' H. injection H as <- <-. exists []. now rewrite app_nil_r.
Qed.

Lemma local_raise {A : Type} (e : exn) : stays_local (@raise A e).
Proof.
  intros w o w' H. injection H as <- <-. exists []. now rewrite app_nil_r.
Qed.

Lemma local_print (line : string) : stays_local (print line).
Proof.
  intros w o w' H. injection H as <- <-. exists [EvPrint line]. split; reflexivity.
Qed.

Lemma local_input (prompt : string) : stays_local (input prompt).
Proof.
  intros w o w' H. unfold input in H. exists [EvInput prompt].
  destruct (stdin w); injection H as <- <-; split; reflexivity.
Qed.

Lemma local_bind {A B : Type} (c : IO A) (k : A -> IO B) :
  stays_local c -> (forall a, stays_local (k a)) -> stays_local (bind c k).
Proof.
  intros Hc Hk w o w' H. unfold bind in H.
  destruct (c w) as [[a|e|] w1] eqn:Hcw.
  - destruct (Hc _ _ _ Hcw) as (ev1 & E1 & H1).
    destruct (Hk a _ _ _ H) as (ev2 & E2 & H2).
    exists (ev1 ++ ev2). rewrite E2, E1, <- app_assoc, existsb_app, H1, H2.
    split; reflexivity.
  - injection H as <- <-. exact (Hc _ _ _ Hcw).
  - injection H as <- <-. exact (Hc _ _ _ Hcw).
Qed.

Lemma prints_are_local (lines : list string) :
  existsb is_remote_call (map EvPrint lines) = false.
Proof. induction lines as [|line lines IH]; [reflexivity | exact IH]. Qed.

Lemma local_quiet {A : Type} (c : IO A) (o : outcome A) :
  ends_quietly c o -> stays_local c.
Proof.
  intros [lines Hc] w o' w' H. rewrite Hc in H. injection H as <- <-.
  exists (map EvPrint lines). split; [reflexivity | apply prints_are_local].
Qed.

Lemma get_directory_local env args : stays_local (get_directory env args).
Proof.
  unfold get_directory.
  assert (stays_local
            (if args_non_interactive args
             then print (fstr ["Non-interactive mode: using default directory '";
                               "./documents"; "'"]) ;; ret "./documents"
             else directory <-
                    input "Enter the path to the directory containing your files: " ;;
                  ret (Py.strip directory))) as Hunprovided.
  { destruct (args_non_interactive args); apply local_bind;
      auto using local_print, local_input, local_ret. }
  apply local_bind.
  - destruct (args_directory args) as [d|]; [|exact Hunprovided].
    destruct (Py.truthy d); [apply local_ret | exact Hunprovided].
  - intros directory.
    destruct (isdir env directory); cbn [negb].
    + destruct (access_R_OK env directory); cbn [negb].
      * apply local_ret.
      * apply local_bind; [apply local_print | intros; apply local_raise].
    + apply local_bind; [apply local_print | intros; apply local_raise].
Qed.

(** C9.  When the directory of the run is resolved and the traversal
    collects no unit, [main] prints that no valid document was found and
    raises [SystemExit(1)], so the process exits with status 1; the trace of
    the whole run holds no call to the embedding provider or the vector
    store. *)
Theorem main_no_documents (env : Env) (cmd : CommandLine)
    (inputs : list string) (directory : string) (w1 : world) :
  get_directory env (argparse_Namespace cmd) (initial_world inputs)
  = (Ret directory, w1) ->
  fst (process_directory env directory (initial_world [])) = Ret [] ->
  exists w' : world,
    run env (Accepted cmd) inputs = (Raise (SystemExit 1), w')
    /\ exit_status (fst (run env (Accepted cmd) inputs)) = Some 1
    /\ (exists events,
          trace w' = events ++ [EvPrint "No valid documents found. Exiting."])
    /\ existsb is_remote_call (trace w') = false.
Proof.
  intros Hdir Hnone.
  assert (ends_quietly (process_directory env directory) (Ret [])) as [lines Hquiet].
  { destruct (process_directory_quiet env directory) as [[_ H] | [_ [lines H]]];
      [exact H|].
    rewrite H in Hnone. discriminate Hnone. }
  destruct (get_directory_local env (argparse_Namespace cmd) _ _ _ Hdir)
    as (ev1 & Htr1 & Hloc1).
  cbn [trace initial_world app] in Htr1.
  assert (run env (Accepted cmd) inputs
          = (Raise (SystemExit 1),
             {| stdin := stdin w1;
                trace := ((trace w1
                           ++ [EvPrint "Processing files in directory. This may take a while..."])
                          ++ map EvPrint lines)
                         ++ [EvPrint "No valid documents found. Exiting."] |})) as Hrun.
  { unfold run, main, bind at 1, parse_args, ret at 1.
    unfold bind at 1. rewrite Hdir.
    unfold bind at 1, print at 1, emit at 1.
    unfold bind at 1. rewrite Hquiet. reflexivity. }
  eexists. split; [exact Hrun|]. rewrite Hrun. cbn [fst trace].
  split; [reflexivity|]. split; [eexists; reflexivity|].
  rewrite Htr1, !existsb_app, Hloc1. cbn [existsb is_remote_call orb].
  rewrite orb_false_r. apply prints_are_local.
Qed.

Lemma main_no_documents_witness :
  exists w' : world,
    run sample_env (Accepted (sample_cmd "empty")) [] = (Raise (SystemExit 1), w')
    /\ exit_status (fst (run sample_env (Accepted (sample_cmd "empty")) []))
       = Some 1
    /\ existsb is_remote_call (trace w') = false.
Proof.
  destruct (main_no_documents sample_env (sample_cmd "empty") []
              "empty" (initial_world [])
              ltac:(reflexivity) ltac:(reflexivity))
    as (w' & Hrun & Hstatus & _ & Hlocal).
  exists w'. split; [exact Hrun|]. split; [exact Hstatus | exact Hlocal].
Defined.

(** A run over the sample directory ends at its first file, with status 1
    and without a remote call. *)
Example run_sample :
  run sample_env (Accepted (sample_cmd "docs")) []
  = (Raise (Exc (NameError "tokenize_text")),
     {| stdin := [];
        trace := [EvPrint "Processing files in directory. This may take a while..."] |})
  /\ exit_status (fst (run sample_env (Accepted (sample_cmd "docs")) [])) = Some 1.
Proof. split; reflexivity. Qed.

(** ** Termination of a run *)

Lemma ends_weaken {A : Type} (n m : nat) (c : IO A) :
  (m <= n)%nat -> ends_within n c -> ends_within m c.
Proof. intros Hle Hc w o w' Hw. apply Hc. lia. Qed.

Lemma ends_ret {A : Type} (n : nat) (a : A) : ends_within n (ret a).
Proof. intros w o w' _ H. injection H as <- <-. split; [discriminate | lia]. Qed.

Lemma ends_raise {A : Type} (n : nat) (e : exn) : ends_within n (@raise A e).
Proof. intros w o w' _ H. injection H as <- <-. split; [discriminate | lia]. Qed.

Lemma ends_emit (n : nat) (e : event) : ends_within n (emit e).
Proof. intros w o w' _ H. injection H as <- <-. split; [discriminate | simpl; lia]. Qed.

Lemma ends_lift {A : Type} (n : nat) (r : result A) : ends_within n (lift r).
Proof. destruct r; [apply ends_raise | apply ends_ret]. Qed.

Lemma ends_bind {A B : Type} (n : nat) (c : IO A) (k : A -> IO B) :
  ends_within n c -> (forall a, ends_within n (k a)) -> ends_within n (bind c k).
Proof.
  intros Hc Hk w o w' Hw H. unfold bind in H.
  destruct (c w) as [[a|e|] w1] eqn:Hcw.
  - destruct (Hc _ _ _ Hw Hcw) as [_ H1].
    assert (List.length (stdin w1) <= n)%nat as Hw1 by lia.
    destruct (Hk a _ _ _ Hw1 H) as [H2 H3]. split; [exact H2 | lia].
  - injection H as <- <-. split; [discriminate | apply (Hc _ _ _ Hw Hcw)].
  - destruct (Hc _ _ _ Hw Hcw) as [Hnot _]. now contradiction Hnot.
Qed.

(** Reading a line leaves one line less for what follows; with no line left
    [input] raises and what follows does not run. *)
Lemma ends_input {B : Type} (n : nat) (prompt : string) (k : string -> IO B) :
  (forall m line, n = S m -> ends_within m (k line)) ->
  ends_within n (bind (input prompt) k).
Proof.
  intros Hk w o w' Hw H. unfold bind, input in H.
  destruct (stdin w) as [|line rest] eqn:Hin.
  - injection H as <- <-. split; [discriminate | simpl; lia].
  - destruct n as [|m]; [simpl in Hw; lia|].
    simpl in Hw.
    assert (List.length (stdin {| stdin := rest; trace := trace w ++ [EvInput prompt] |})
            <= m)%nat as Hrest by (simpl; lia).
    destruct (Hk m line eq_refl _ _ _ Hrest H) as [H1 H2].
    split; [exact H1 | simpl in *; lia].
Qed.

Lemma ends_for_each {X S : Type} (n : nat) (body : X -> S -> IO S) (l : list X) :
  (forall x s, ends_within n (body x s)) ->
  forall s, ends_within n (for_each l body s).
Proof.
  intros Hbody. induction l as [|x l IH]; intros s; simpl.
  - apply ends_ret.
  - apply ends_bind; [apply Hbody | apply IH].
Qed.

Lemma ends_quiet {A : Type} (n : nat) (c : IO A) (o : outcome A) :
  o <> Diverge -> ends_quietly c o -> ends_within n c.
Proof.
  intros Ho [lines Hc] w o' w' _ H. rewrite Hc in H. injection H as <- <-.
  split; [exact Ho | simpl; lia].
Qed.

(** A loop that is given one unit of fuel more than there are lines left. *)
Lemma ends_fuelled {A : Type} (n : nat) (loop : nat -> IO A) :
  (forall fuel m, (m < fuel)%nat -> ends_within m (loop fuel)) ->
  ends_within n (fun w => loop (S (List.length (stdin w))) w).
Proof.
  intros Hloop w o w' Hw H.
  apply (Hloop (S (List.length (stdin w))) (List.length (stdin w))); [lia .. | exact H].
Qed.

Ltac ends_step :=
  first
    [ apply ends_ret | apply ends_raise | apply ends_emit | apply ends_lift
    | apply ends_input; intros ? ? ?; subst
    | apply ends_bind; [| intros ?] ].

Lemma ends_create_index (n : nat) env name : ends_within n (pc_create_index env name).
Proof. unfold pc_create_index. repeat ends_step. Qed.

Lemma select_index_loop_ends env existing_indexes :
  forall fuel n, (n < fuel)%nat ->
    ends_within n (select_index_loop fuel env existing_indexes).
Proof.
  induction fuel as [|fuel IH]; intros n Hn; [lia|].
  cbn [select_index_loop].
  apply ends_input. intros m choice ->.
  assert (ends_within m (select_index_loop fuel env existing_indexes)) as Hagain
      by (apply IH; lia).
  destruct (negb _).
  { apply ends_bind; [apply ends_emit | intros _; exact Hagain]. }
  destruct (_ =? "s").
  { apply ends_input. intros m' index_name ->.
    destruct (Py.mem _ existing_indexes); [apply ends_ret|].
    apply ends_input. intros m'' create_choice ->.
    destruct (_ =? "y").
    - apply ends_bind; [apply ends_emit | intros _].
      apply ends_bind; [apply ends_create_index | intros _; apply ends_ret].
    - apply ends_bind; [apply ends_emit | intros _].
      apply (ends_weaken (S (S m''))); [lia | exact Hagain]. }
  destruct (_ =? "c"); [|exact Hagain].
  apply ends_input. intros m' index_name ->.
  apply ends_bind; [|intros _; apply ends_ret].
  destruct (Py.mem _ existing_indexes); [apply ends_emit|].
  apply ends_bind; [apply ends_emit | intros _; apply ends_create_index].
Qed.

Lemma select_or_create_index_ends (n : nat) env provided_index non_interactive :
  ends_within n (select_or_create_index env provided_index non_interactive).
Proof.
  unfold select_or_create_index.
  set (unprovided := if non_interactive then _ else _).
  assert (ends_within n unprovided) as Hunprovided.
  { unfold unprovided. destruct non_interactive.
    - apply ends_bind; [|intros _; apply ends_ret].
      destruct (negb _); [|apply ends_emit].
      apply ends_bind; [apply ends_emit | intros _; apply ends_create_index].
    - apply ends_bind; [apply ends_emit | intros _].
      apply (ends_fuelled _ (fun fuel =>
               select_index_loop fuel env (list_indexes_names env))).
      apply select_index_loop_ends. }
  destruct provided_index as [name|]; [|exact Hunprovided].
  destruct (Py.truthy name); [|exact Hunprovided].
  destruct (Py.mem name _).
  - apply ends_bind; [apply ends_emit | intros _; apply ends_ret].
  - apply ends_bind; [apply ends_emit | intros _].
    apply ends_bind; [apply ends_create_index | intros _; apply ends_ret].
Qed.

Lemma select_or_create_namespace_ends (n : nat) provided_namespace non_interactive :
  ends_within n (select_or_create_namespace provided_namespace non_interactive).
Proof.
  unfold select_or_create_namespace.
  destruct provided_namespace as [ns|].
  - apply ends_bind; [apply ends_emit | intros _; apply ends_ret].
  - destruct non_interactive.
    + apply ends_bind; [apply ends_emit | intros _; apply ends_ret].
    + apply ends_input. intros m line ->. apply ends_ret.
Qed.

Lemma initialize_ends (n : nat) env args : ends_within n (initialize env args).
Proof.
  unfold initialize. apply ends_bind.
  - unfold load_config. destruct (_ || _); [apply ends_raise | apply ends_ret].
  - intros [pinecone_key openai_key].
    apply ends_bind; [apply select_or_create_index_ends | intros index_name].
    apply ends_bind; [apply select_or_create_namespace_ends | intros ns; apply ends_ret].
Qed.

Lemma embed_text_ends (n : nat) env texts client :
  ends_within n (embed_text env texts client).
Proof. unfold embed_text. repeat ends_step. Qed.

Lemma upsert_data_ends (n : nat) env documents index namespace client args :
  ends_within n (upsert_data env documents index namespace client args).
Proof.
  unfold upsert_data.
  apply ends_bind; [apply embed_text_ends | intros embeddings].
  apply ends_bind.
  { destruct (Py.range _ _ _); [apply ends_ret | apply ends_raise]. }
  intros starts. apply ends_bind; [|intros _; apply ends_emit].
  apply ends_for_each. intros i s. unfold print. repeat ends_step.
Qed.

Lemma query_pinecone_ends (n : nat) env query index namespace client args top_k :
  ends_within n (query_pinecone env query index namespace client args top_k).
Proof.
  unfold query_pinecone.
  apply ends_bind; [apply embed_text_ends | intros embeddings].
  apply ends_bind.
  { destruct embeddings; [apply ends_raise | apply ends_ret]. }
  intros query_embedding. repeat ends_step.
Qed.

Lemma query_loop_ends env index namespace client args :
  forall fuel n, (n < fuel)%nat ->
    ends_within n (query_loop fuel env index namespace client args).
Proof.
  induction fuel as [|fuel IH]; intros n Hn; [lia|].
  cbn [query_loop].
  apply ends_input. intros m choice ->.
  assert (ends_within m (query_loop fuel env index namespace client args)) as Hagain
      by (apply IH; lia).
  destruct (_ =? "q").
  { apply ends_input. intros m' user_query ->.
    apply ends_bind; [apply query_pinecone_ends | intros results].
    apply ends_bind; [apply ends_emit | intros _].
    apply ends_bind.
    - apply ends_for_each. intros r s. apply ends_emit.
    - intros _. apply (ends_weaken (S m')); [lia | exact Hagain]. }
  destruct (_ =? "e"); [apply ends_emit|].
  apply ends_bind; [apply ends_emit | intros _; exact Hagain].
Qed.

Lemma get_directory_ends (n : nat) env args : ends_within n (get_directory env args).
Proof.
  unfold get_directory.
  set (unprovided := if args_non_interactive args then _ else _).
  assert (ends_within n unprovided) as Hunprovided.
  { unfold unprovided. destruct (args_non_interactive args).
    - apply ends_bind; [apply ends_emit | intros _; apply ends_ret].
    - apply ends_input. intros m line ->. apply ends_ret. }
  apply ends_bind.
  - destruct (args_directory args) as [d|]; [|exact Hunprovided].
    destruct (Py.truthy d); [apply ends_ret | exact Hunprovided].
  - intros directory.
    destruct (negb (isdir env directory)).
    { apply ends_bind; [apply ends_emit | intros _; apply ends_raise]. }
    destruct (negb (access_R_OK env directory)).
    { apply ends_bind; [apply ends_emit | intros _; apply ends_raise]. }
    apply ends_ret.
Qed.

Lemma process_directory_ends (n : nat) env directory :
  ends_within n (process_directory env directory).
Proof.
  destruct (process_directory_quiet env directory) as [[_ H] | [_ H]];
    (eapply ends_quiet; [|exact H]); discriminate.
Qed.

Lemma parse_args_ends (n : nat) argv : ends_within n (parse_args argv).
Proof.
  destruct argv; cbn [parse_args]; [apply ends_ret | ..];
    (apply ends_bind; [apply ends_emit | intros _; apply ends_raise]).
Qed.

(** Every run ends: the iteration bounds of the loops are never reached. *)
Lemma run_ends (env : Env) (argv : Argv) (inputs : list string) :
  fst (run env argv inputs) <> Diverge.
Proof.
  assert (ends_within (List.length inputs) (main env argv)) as Hmain.
  { unfold main.
    apply ends_bind; [apply parse_args_ends | intros args].
    apply ends_bind; [apply get_directory_ends | intros directory].
    apply ends_bind; [apply ends_emit | intros _].
    apply ends_bind; [apply process_directory_ends|].
    intros [|d documents].
    - apply ends_bind; [apply ends_emit | intros _; apply ends_raise].
    - apply ends_bind; [apply initialize_ends | intros [[[client pc] index] namespace]].
      apply ends_bind; [apply upsert_data_ends | intros _].
      destruct (negb _); [|apply ends_emit].
      apply (ends_fuelled _ (fun fuel =>
               query_loop fuel env index namespace client args)).
      apply query_loop_ends. }
  unfold run. destruct (main env argv (initial_world inputs)) as [o w'] eqn:Hrun.
  cbn [fst]. apply (Hmain (initial_world inputs) o w' (Nat.le_refl _) Hrun).
Qed.

(** ** Events of a computation *)

Section Only.

Variable p : event -> bool.

Lemma only_ret {A : Type} (a : A) : only p (ret a).
Proof.
  intros w o w' H. injection H as <- <-. exists [].
  rewrite app_nil_r. repeat split.
Qed.

Lemma only_raise {A : Type} (e : exn) : only p (@raise A e).
Proof.
  intros w o w' H. injection H as <- <-. exists [].
  rewrite app_nil_r. repeat split.
Qed.

Lemma only_diverge {A : Type} : only p (@diverge A).
Proof.
  intros w o w' H. injection H as <- <-. exists [].
  rewrite app_nil_r. repeat split.
Qed.

Lemma only_lift {A : Type} (r : result A) : only p (lift r).
Proof. destruct r; [apply only_raise | apply only_ret]. Qed.

Lemma only_lift_option {A : Type} (r : option A) : only p (lift_option r).
Proof. destruct r; [apply only_ret | apply only_diverge]. Qed.

Lemma only_emit (e : event) : p e = true -> only p (emit e).
Proof.
  intros He w o w' H. injection H as <- <-. exists [e].
  simpl. rewrite He. repeat split.
Qed.

Lemma only_input (prompt : string) : p (EvInput prompt) = true -> only p (input prompt).
Proof.
  intros He w o w' H. unfold input in H. exists [EvInput prompt].
  destruct (stdin w); injection H as <- <-; simpl; rewrite He;
    repeat split; discriminate.
Qed.

Lemma only_bind {A B : Type} (c : IO A) (k : A -> IO B) :
  only p c -> (forall a, only p (k a)) -> only p (bind c k).
Proof.
  intros Hc Hk w o w' H. unfold bind in H.
  destruct (c w) as [[a|e|] w1] eqn:Hcw.
  - destruct (Hc _ _ _ Hcw) as (ev1 & E1 & P1 & S1).
    destruct (Hk a _ _ _ H) as (ev2 & E2 & P2 & S2).
    exists (ev1 ++ ev2). rewrite E2, E1, <- app_assoc, forallb_app, P1, P2.
    repeat split. rewrite existsb_app. intros Hno.
    apply orb_false_elim in Hno. destruct Hno as [N1 N2].
    rewrite (S2 N2). apply S1. exact N1.
  - injection H as <- <-. destruct (Hc _ _ _ Hcw) as (ev1 & E1 & P1 & S1). eauto.
  - injection H as <- <-. destruct (Hc _ _ _ Hcw) as (ev1 & E1 & P1 & S1). eauto.
Qed.

Lemma only_for_each {X S : Type} (body : X -> S -> IO S) (l : list X) :
  (forall x s, only p (body x s)) -> forall s, only p (for_each l body s).
Proof.
  intros Hbody. induction l as [|x l IH]; intros s; simpl.
  - apply only_ret.
  - apply only_bind; [apply Hbody | apply IH].
Qed.

Lemma only_quiet {A : Type} (c : IO A) (o : outcome A) :
  (forall line, p (EvPrint line) = true) -> ends_quietly c o -> only p c.
Proof.
  intros Hp [lines Hc] w o' w' H. rewrite Hc in H. injection H as <- <-.
  exists (map EvPrint lines). split; [reflexivity|]. split; [|intros _; reflexivity].
  clear Hc. induction lines as [|line lines IH]; simpl; [reflexivity|].
  now rewrite Hp, IH.
Qed.

Lemma only_bind_ret {A B : Type} (a : A) (k : A -> IO B) :
  only p (k a) -> only p (bind (ret a) k).
Proof. intros Hk w o w' H. exact (Hk w o w' H). Qed.

(** What follows a computation is only run on the values it returns. *)
Lemma only_bind_returns {A B : Type} (Q : A -> Prop) (c : IO A) (k : A -> IO B) :
  only p c -> (forall w a w', c w = (Ret a, w') -> Q a) ->
  (forall a, Q a -> only p (k a)) -> only p (bind c k).
Proof.
  intros Hc HQ Hk w o w' H. unfold bind in H.
  destruct (c w) as [[a|e|] w1] eqn:Hcw.
  - destruct (Hc _ _ _ Hcw) as (ev1 & E1 & P1 & S1).
    destruct (Hk a (HQ _ _ _ Hcw) _ _ _ H) as (ev2 & E2 & P2 & S2).
    exists (ev1 ++ ev2). rewrite E2, E1, <- app_assoc, forallb_app, P1, P2.
    repeat split. rewrite existsb_app. intros Hno.
    apply orb_false_elim in Hno. destruct Hno as [N1 N2].
    rewrite (S2 N2). apply S1. exact N1.
  - injection H as <- <-. destruct (Hc _ _ _ Hcw) as (ev1 & E1 & P1 & S1). eauto.
  - injection H as <- <-. destruct (Hc _ _ _ Hcw) as (ev1 & E1 & P1 & S1). eauto.
Qed.

Lemma only_state {A : Type} (f : world -> IO A) :
  (forall w0, only p (f w0)) -> only p (fun w => f w w).
Proof. intros Hf w o w' H. exact (Hf w w o w' H). Qed.

End Only.

Lemma forallb_negb_existsb {X : Type} (f : X -> bool) (l : list X) :
  forallb (fun x => negb (f x)) l = true -> existsb f l = false.
Proof.
  induction l as [|x l IH]; [reflexivity|]. simpl. intros H.
  apply andb_prop in H. destruct H as [Hx H]. rewrite (IH H).
  now destruct (f x).
Qed.

(** A step of a proof that a computation built from the primitives emits
    only events of a kind: the side conditions on single events are left
    to computation. *)
Ltac only_side :=
  first
    [ reflexivity
    | match goal with H : forall e : event, _ |- _ => apply H; reflexivity end
    | match goal with H : forall _ : _, _ = true |- _ => apply H end
    | auto ].

Ltac only_step :=
  first
    [ apply only_ret | apply only_raise | apply only_diverge
    | apply only_lift | apply only_lift_option
    | apply only_emit; only_side
    | apply only_input; only_side
    | apply only_bind; [| intros ?] ].

Ltac only_auto :=
  repeat first
    [ assumption
    | only_step
    | match goal with
      | |- only _ (if ?b then _ else _) => destruct b
      | |- only _ (match ?x with _ => _ end) => destruct x
      end ].

(** ** Values and exceptions of a computation *)

Lemma returns_ret {A : Type} (Q : A -> Prop) (a : A) : Q a -> returns_only Q (ret a).
Proof. intros HQ w a' w' H. injection H as <- _. exact HQ. Qed.

Lemma returns_never {A : Type} (Q : A -> Prop) (c : IO A) :
  (forall w a w', c w <> (Ret a, w')) -> returns_only Q c.
Proof. intros Hc w a w' H. now apply Hc in H. Qed.

Lemma returns_raise {A : Type} (Q : A -> Prop) (e : exn) : returns_only Q (raise e).
Proof. intros w a w' H. discriminate H. Qed.

Lemma returns_diverge {A : Type} (Q : A -> Prop) : returns_only Q diverge.
Proof. intros w a w' H. discriminate H. Qed.

Lemma returns_any {A : Type} (Q : A -> Prop) (c : IO A) :
  (forall a, Q a) -> returns_only Q c.
Proof. intros HQ w a w' _. apply HQ. Qed.

Lemma returns_bind {A B : Type} (Q1 : A -> Prop) (Q : B -> Prop) (c : IO A)
    (k : A -> IO B) :
  returns_only Q1 c -> (forall a, Q1 a -> returns_only Q (k a)) ->
  returns_only Q (bind c k).
Proof.
  intros Hc Hk w b w' H. unfold bind in H.
  destruct (c w) as [[a|e|] w1] eqn:Hcw; try discriminate H.
  exact (Hk a (Hc _ _ _ Hcw) _ _ _ H).
Qed.

Lemma returns_then {A B : Type} (Q : B -> Prop) (c : IO A) (k : A -> IO B) :
  (forall a, returns_only Q (k a)) -> returns_only Q (bind c k).
Proof.
  intros Hk. apply (returns_bind (fun _ => True)); [apply returns_any; auto | auto].
Qed.

Lemma raises_ret {A : Type} (E : exn -> Prop) (a : A) : raises_only E (ret a).
Proof. intros w e w' H. discriminate H. Qed.

Lemma raises_emit (E : exn -> Prop) (ev : event) : raises_only E (emit ev).
Proof. intros w e w' H. discriminate H. Qed.

Lemma raises_diverge {A : Type} (E : exn -> Prop) : raises_only E (@diverge A).
Proof. intros w e w' H. discriminate H. Qed.

Lemma raises_raise {A : Type} (E : exn -> Prop) (e : exn) : E e -> raises_only E (@raise A e).
Proof. intros HE w e' w' H. injection H as <- _. exact HE. Qed.

Lemma raises_lift {A : Type} (E : exn -> Prop) (r : result A) :
  (forall e, E (Exc e)) -> raises_only E (lift r).
Proof. intros HE. destruct r; [apply raises_raise, HE | apply raises_ret]. Qed.

Lemma raises_lift_option {A : Type} (E : exn -> Prop) (r : option A) :
  raises_only E (lift_option r).
Proof. destruct r; [apply raises_ret | apply raises_diverge]. Qed.

Lemma raises_input (E : exn -> Prop) (prompt : string) :
  E (Exc EOFError) -> raises_only E (input prompt).
Proof.
  intros HE w e w' H. unfold input in H.
  destruct (stdin w); [injection H as <- _; exact HE | discriminate H].
Qed.

Lemma raises_bind {A B : Type} (E : exn -> Prop) (c : IO A) (k : A -> IO B) :
  raises_only E c -> (forall a, raises_only E (k a)) -> raises_only E (bind c k).
Proof.
  intros Hc Hk w e w' H. unfold bind in H.
  destruct (c w) as [[a|e1|] w1] eqn:Hcw.
  - exact (Hk a _ _ _ H).
  - injection H as <- _. exact (Hc _ _ _ Hcw).
  - discriminate H.
Qed.

Lemma raises_for_each {X S : Type} (E : exn -> Prop) (body : X -> S -> IO S) (l : list X) :
  (forall x s, raises_only E (body x s)) -> forall s, raises_only E (for_each l body s).
Proof.
  intros Hbody. induction l as [|x l IH]; intros s; simpl.
  - apply raises_ret.
  - apply raises_bind; [apply Hbody | apply IH].
Qed.

Lemma raises_quiet {A : Type} (E : exn -> Prop) (c : IO A) (o : outcome A) :
  (forall e, o = Raise e -> E e) -> ends_quietly c o -> raises_only E c.
Proof.
  intros HE [lines Hc] w e w' H. rewrite Hc in H. injection H as Ho _.
  apply HE. exact Ho.
Qed.

Lemma raises_bind_ret {A B : Type} (E : exn -> Prop) (a : A) (k : A -> IO B) :
  raises_only E (k a) -> raises_only E (bind (ret a) k).
Proof. intros Hk w e w' H. exact (Hk w e w' H). Qed.

Lemma returns_bind_ret {A B : Type} (Q : B -> Prop) (a : A) (k : A -> IO B) :
  returns_only Q (k a) -> returns_only Q (bind (ret a) k).
Proof. intros Hk w b w' H. exact (Hk w b w' H). Qed.

(** What follows a computation is only run on the values it returns. *)
Lemma raises_bind_returns {A B : Type} (E : exn -> Prop) (Q : A -> Prop) (c : IO A)
    (k : A -> IO B) :
  raises_only E c -> returns_only Q c -> (forall a, Q a -> raises_only E (k a)) ->
  raises_only E (bind c k).
Proof.
  intros Hc HQ Hk w e w' H. unfold bind in H.
  destruct (c w) as [[a|e1|] w1] eqn:Hcw.
  - exact (Hk a (HQ _ _ _ Hcw) _ _ _ H).
  - injection H as <- _. exact (Hc _ _ _ Hcw).
  - discriminate H.
Qed.

Lemma raises_state {A : Type} (E : exn -> Prop) (f : world -> IO A) :
  (forall w0, raises_only E (f w0)) -> raises_only E (fun w => f w w).
Proof. intros Hf w e w' H. exact (Hf w w e w' H). Qed.

Ltac raises_step :=
  first
    [ apply raises_ret | apply raises_emit | apply raises_diverge
    | apply raises_lift_option
    | apply raises_lift; intros ?; cbn; auto
    | apply raises_input; cbn; auto
    | apply raises_raise; cbn; auto
    | apply raises_bind; [| intros ?] ].

(** ** The directory of a run *)

(** [get_directory] returns only a directory that exists and can be read:
    the one given on the command line when there is one, [./documents] in
    non-interactive mode, the trimmed answer at the prompt otherwise.  It
    ends in no other way than by [sys.exit(1)] or, with no answer left to
    read, by [EOFError]. *)
Theorem get_directory_checked (env : Env) (args : Args) (w : world)
    (o : outcome string) (w' : world) :
  get_directory env args w = (o, w') ->
  match o with
  | Ret directory =>
      isdir env directory = true
      /\ access_R_OK env directory = true
      /\ (forall d, args_directory args = Some d -> Py.truthy d = true -> directory = d)
      /\ (provided (args_directory args) = false ->
          args_non_interactive args = true -> directory = "./documents")
  | Raise e => e = SystemExit 1 \/ e = Exc EOFError
  | Diverge => False
  end.
Proof.
  intros H.
  set (resolved := fun directory : string =>
         (forall d, args_directory args = Some d -> Py.truthy d = true -> directory = d)
         /\ (provided (args_directory args) = false ->
             args_non_interactive args = true -> directory = "./documents")).
  assert (returns_only
            (fun directory => isdir env directory = true
                              /\ access_R_OK env directory = true
                              /\ resolved directory)
            (get_directory env args)) as Hret.
  { unfold get_directory. apply (returns_bind resolved).
    - assert (provided (args_directory args) = false ->
              returns_only resolved
                (if args_non_interactive args
                 then print (fstr ["Non-interactive mode: using default directory '";
                                   "./documents"; "'"]) ;; ret "./documents"
                 else directory <-
                        input "Enter the path to the directory containing your files: " ;;
                      ret (Py.strip directory))) as Hunprovided.
      { intros Hnone. destruct (args_non_interactive args).
        - apply returns_then. intros _. apply returns_ret. split.
          + intros d Hd Ht. rewrite Hd in Hnone. simpl in Hnone. congruence.
          + reflexivity.
        - apply returns_then. intros line. apply returns_ret. split.
          + intros d Hd Ht. rewrite Hd in Hnone. simpl in Hnone. congruence.
          + discriminate. }
      destruct (args_directory args) as [d|] eqn:Hd; [|apply Hunprovided; reflexivity].
      destruct (Py.truthy d) eqn:Ht; [|apply Hunprovided; exact Ht].
      apply returns_ret. split.
      + intros d' Hd' _. congruence.
      + simpl. congruence.
    - intros directory Hres.
      destruct (isdir env directory) eqn:Hdir; cbn [negb].
      + destruct (access_R_OK env directory) eqn:Hacc; cbn [negb].
        * apply returns_ret. auto.
        * apply returns_then. intros _. apply returns_raise.
      + apply returns_then. intros _. apply returns_raise. }
  assert (raises_only (fun e => e = SystemExit 1 \/ e = Exc EOFError)
                      (get_directory env args)) as Hraise.
  { unfold get_directory, sys_exit, print.
    apply raises_bind.
    - destruct (args_directory args) as [d|]; [destruct (Py.truthy d)|];
        try apply raises_ret;
        destruct (args_non_interactive args); repeat raises_step.
    - intros directory.
      destruct (negb (isdir env directory)); [repeat raises_step|].
      destruct (negb (access_R_OK env directory)); repeat raises_step. }
  destruct o as [directory|e|].
  - exact (Hret _ _ _ H).
  - exact (Hraise _ _ _ H).
  - exact (proj1 (get_directory_ends (List.length (stdin w)) env args _ _ _
                    (Nat.le_refl _) H) eq_refl).
Qed.

Lemma get_directory_checked_witness :
  exists w' : world,
    get_directory sample_env (argparse_Namespace (sample_cmd "docs")) (initial_world [])
    = (Ret "docs", w')
    /\ isdir sample_env "docs" = true.
Proof.
  eexists. split; [reflexivity|].
  exact (proj1 (get_directory_checked sample_env (argparse_Namespace (sample_cmd "docs"))
                  (initial_world []) (Ret "docs") _ eq_refl)).
Defined.

(** ** The exit status of a run *)

Ltac raises_auto :=
  repeat first
    [ assumption
    | raises_step
    | match goal with
      | |- raises_only _ (if ?b then _ else _) => destruct b
      | |- raises_only _ (match ?x with _ => _ end) => destruct x
      end ].

Section ExitStatus.

Variable env : Env.

(** [process_directory] returns the empty list only. *)
Lemma process_directory_returns directory :
  returns_only (fun documents => documents = []) (process_directory env directory).
Proof.
  intros w documents w' H.
  destruct (process_directory_quiet env directory) as [[_ [lines Hq]] | [_ [lines Hq]]];
    rewrite Hq in H; [now injection H as <- _ | discriminate H].
Qed.

Lemma process_directory_raises directory :
  raises_only exits_one (process_directory env directory).
Proof.
  destruct (process_directory_quiet env directory) as [[_ H] | [_ H]];
    (eapply raises_quiet; [|exact H]); intros e He; [discriminate He|].
  injection He as <-. exact I.
Qed.

(** What [main] leaves uncaught on a command line that argparse accepts: an
    exception, or [SystemExit] with code 1. *)
Lemma main_raises cmd : raises_only exits_one (main env (Accepted cmd)).
Proof.
  unfold main. cbn [parse_args]. apply raises_bind_ret.
  apply raises_bind.
  { unfold get_directory, sys_exit, print. raises_auto. }
  intros directory. apply raises_bind; [unfold print; raises_auto | intros _].
  apply (raises_bind_returns _ (fun documents => documents = []));
    [apply process_directory_raises | apply process_directory_returns|].
  intros documents ->. unfold sys_exit, print. raises_auto.
Qed.

(** [main] never returns: a run that gets through the traversal has
    collected nothing. *)
Lemma main_never_returns argv : returns_only (fun _ => False) (main env argv).
Proof.
  unfold main. destruct argv as [cmd|help|message]; cbn [parse_args].
  - apply returns_bind_ret.
    apply returns_then. intros directory. apply returns_then. intros _.
    apply (returns_bind (fun documents => documents = []));
      [apply process_directory_returns|].
    intros documents ->. apply returns_then. intros _. apply returns_raise.
  - apply (returns_bind (fun _ => False)); [|intros _ []].
    apply returns_then. intros _. apply returns_raise.
  - apply (returns_bind (fun _ => False)); [|intros _ []].
    apply returns_then. intros _. apply returns_raise.
Qed.

End ExitStatus.

(** The exit status of a run is decided by the command line alone: 2 when
    argparse rejects it, 0 when it asks for the help, and 1 for every
    command line argparse accepts.  No run ends with another status, no run
    fails to end, and no run on an accepted command line succeeds: [main]
    ends by [sys.exit(1)] or by an uncaught exception. *)
Theorem run_exit_status (env : Env) (argv : Argv) (inputs : list string) :
  exit_status (fst (run env argv inputs)) = Some (status_of argv)
  /\ fst (run env argv inputs) <> Ret tt.
Proof.
  pose proof (run_ends env argv inputs) as Hends.
  pose proof (main_never_returns env argv (initial_world inputs)) as Hnever.
  split.
  - destruct argv as [cmd|help|message]; [|reflexivity ..].
    pose proof (main_raises env cmd (initial_world inputs)) as Hraise.
    unfold run in *.
    destruct (main env (Accepted cmd) (initial_world inputs)) as [[[]|e|] w'] eqn:Hrun;
      cbn [fst exit_status status_of] in *.
    + destruct (Hnever tt w' eq_refl).
    + specialize (Hraise e w' eq_refl). destruct e as [e|code]; cbn in Hraise;
        [reflexivity | now subst code].
    + contradiction.
  - unfold run in *.
    destruct (main env argv (initial_world inputs)) as [[[]|e|] w'] eqn:Hrun;
      cbn [fst]; [|discriminate ..].
    destruct (Hnever tt w' eq_refl).
Qed.

(** ** What the parts of a run emit *)

Section Emitted.

Variable p : event -> bool.
Variable env : Env.

(** Every event that is no prompt and carries no data passes [p]. *)
Hypothesis plain : forall e, is_data_call e = false -> is_input e = false -> p e = true.

Lemma plain_print line : p (EvPrint line) = true.
Proof. apply plain; reflexivity. Qed.

Lemma plain_create name d m c r : p (EvCreateIndex name d m c r) = true.
Proof. apply plain; reflexivity. Qed.

Lemma plain_indexes label names : p (EvPrintIndexes label names) = true.
Proof. apply plain; reflexivity. Qed.

Lemma plain_match text score : p (EvPrintMatch text score) = true.
Proof. apply plain; reflexivity. Qed.

Lemma only_print line : only p (print line).
Proof. apply only_emit, plain_print. Qed.

Lemma only_create name : only p (pc_create_index env name).
Proof.
  unfold pc_create_index. apply only_bind; [apply only_emit, plain_create|].
  intros _. apply only_lift.
Qed.

Lemma only_process_directory directory : only p (process_directory env directory).
Proof.
  destruct (process_directory_quiet env directory) as [[_ H] | [_ H]];
    (eapply only_quiet; [apply plain_print | exact H]).
Qed.

Lemma only_parse_args argv : only p (parse_args argv).
Proof.
  destruct argv; cbn [parse_args]; [apply only_ret | ..];
    (apply only_bind; [apply only_emit, plain; reflexivity | intros _; apply only_raise]).
Qed.

(** Without a prompt: what runs in non-interactive mode. *)
Lemma only_get_directory_set args :
  args_non_interactive args = true \/ provided (args_directory args) = true ->
  only p (get_directory env args).
Proof.
  intros Hset. unfold get_directory, sys_exit.
  apply only_bind.
  - destruct (args_directory args) as [d|]; cbn [provided] in Hset.
    + destruct (Py.truthy d); [apply only_ret|].
      destruct Hset as [-> | Hd]; [|discriminate].
      apply only_bind; [apply only_print | intros _; apply only_ret].
    + destruct Hset as [-> | Hd]; [|discriminate].
      apply only_bind; [apply only_print | intros _; apply only_ret].
  - intros directory.
    destruct (negb (isdir env directory)).
    { apply only_bind; [apply only_print | intros _; apply only_raise]. }
    destruct (negb (access_R_OK env directory)).
    { apply only_bind; [apply only_print | intros _; apply only_raise]. }
    apply only_ret.
Qed.

Lemma only_select_index_set provided_index non_interactive :
  non_interactive = true \/ provided provided_index = true ->
  only p (select_or_create_index env provided_index non_interactive).
Proof.
  intros Hset. unfold select_or_create_index.
  assert (forall name, only p
            (if Py.mem name (list_indexes_names env)
             then print (fstr ["Using provided existing index: "; name]) ;; ret name
             else print (fstr ["Provided index '"; name;
                               "' does not exist. Creating it..."]) ;;
                  pc_create_index env name ;; ret name)) as Hprovided.
  { intros name. destruct (Py.mem name _).
    - apply only_bind; [apply only_print | intros _; apply only_ret].
    - apply only_bind; [apply only_print | intros _].
      apply only_bind; [apply only_create | intros _; apply only_ret]. }
  assert (non_interactive = true ->
          only p
            (if non_interactive
             then (if negb (Py.mem "default_index" (list_indexes_names env))
                   then print (fstr ["Creating default index '"; "default_index"; "'..."]) ;;
                        pc_create_index env "default_index"
                   else print (fstr ["Using existing default index: "; "default_index"])) ;;
                  ret "default_index"
             else emit (EvPrintIndexes "Existing indexes:" (list_indexes_names env)) ;;
                  (fun w => select_index_loop (S (List.length (stdin w))) env
                              (list_indexes_names env) w))) as Hdefault.
  { intros ->. apply only_bind; [|intros _; apply only_ret].
    destruct (negb _); [|apply only_print].
    apply only_bind; [apply only_print | intros _; apply only_create]. }
  destruct provided_index as [name|]; cbn [provided] in Hset.
  - destruct (Py.truthy name); [apply Hprovided|].
    destruct Hset as [Hni | Hp]; [apply Hdefault; exact Hni | discriminate].
  - destruct Hset as [Hni | Hp]; [apply Hdefault; exact Hni | discriminate].
Qed.

Lemma only_select_namespace_set provided_namespace non_interactive :
  non_interactive = true \/ provided_namespace <> None ->
  only p (select_or_create_namespace provided_namespace non_interactive).
Proof.
  intros Hset. unfold select_or_create_namespace.
  destruct provided_namespace as [ns|].
  - apply only_bind; [apply only_print | intros _; apply only_ret].
  - destruct Hset as [-> | Hp]; [|congruence].
    apply only_bind; [apply only_print | intros _; apply only_ret].
Qed.

Lemma only_load_config : only p (load_config env).
Proof. unfold load_config. destruct (_ || _); [apply only_raise | apply only_ret]. Qed.

(** What [upsert_data] emits: one embedding call, writes to the index and
    the namespace it was given, and lines. *)
Lemma only_upsert_data documents index namespace client args :
  (forall model texts, p (EvEmbed model texts) = true) ->
  (forall batch, p (EvUpsert index batch (ns_of namespace)) = true) ->
  only p (upsert_data env documents index namespace client args).
Proof.
  intros Hembed Hwrite. unfold upsert_data, embed_text.
  apply only_bind.
  { apply only_bind; [apply only_emit, Hembed | intros _; apply only_lift]. }
  intros embeddings. apply only_bind.
  { destruct (Py.range _ _ _); [apply only_ret | apply only_raise]. }
  intros starts. apply only_bind; [|intros _; apply only_print].
  apply only_for_each. intros i s.
  apply only_bind; [apply only_emit, Hwrite | intros _].
  apply only_bind; [apply only_lift | intros _; apply only_print].
Qed.

End Emitted.

(** ** Non-interactive runs *)



(** ** Index selection *)

Lemma bind_assoc {A B C : Type} (c : IO A) (k : A -> IO B) (h : B -> IO C) (w : world) :
  bind (bind c k) h w = bind c (fun a => bind (k a) h) w.
Proof. unfold bind. destruct (c w) as [[a|e|] w1]; reflexivity. Qed.

Lemma created_none events :
  forallb (fun e => negb (is_create e)) events = true -> created_indexes events = [].
Proof.
  induction events as [|e events IH]; [reflexivity|]. simpl. intros H.
  apply andb_prop in H. destruct H as [He H]. destruct e; try discriminate; auto.
Qed.

Lemma created_app ev1 ev2 :
  created_indexes (ev1 ++ ev2) = created_indexes ev1 ++ created_indexes ev2.
Proof.
  induction ev1 as [|e ev1 IH]; [reflexivity|]. destruct e; simpl; now rewrite IH.
Qed.

Section IndexChoice.

Variable env : Env.
Variable existing : list string.

Lemma chooses_ext (c c' : IO string) :
  (forall w, c w = c' w) -> chooses_index existing c -> chooses_index existing c'.
Proof. intros Heq Hc w o w' H. rewrite <- Heq in H. exact (Hc _ _ _ H). Qed.

Lemma chooses_ret name :
  Py.mem name existing = true -> chooses_index existing (ret name).
Proof.
  intros Hin w o w' H. injection H as <- <-. exists []. rewrite app_nil_r.
  split; [reflexivity|]. intros name' Hname. injection Hname as <-. exact Hin.
Qed.

Lemma chooses_diverge : chooses_index existing diverge.
Proof.
  intros w o w' H. injection H as <- <-. exists []. rewrite app_nil_r.
  split; [reflexivity|]. intros name' Hname. discriminate Hname.
Qed.

(** A step that asks for no index, before the choice is made. *)
Lemma chooses_after {A : Type} (c : IO A) (k : A -> IO string) :
  only (fun e => negb (is_create e)) c ->
  (forall a, chooses_index existing (k a)) ->
  chooses_index existing (bind c k).
Proof.
  intros Hc Hk w o w' H. unfold bind in H.
  destruct (c w) as [[a|e|] w1] eqn:Hcw.
  - destruct (Hc _ _ _ Hcw) as (ev1 & E1 & P1 & _).
    destruct (Hk a _ _ _ H) as (ev2 & E2 & Hchoice).
    exists (ev1 ++ ev2). rewrite E2, E1, <- app_assoc. split; [reflexivity|].
    unfold index_choice in *. now rewrite created_app, (created_none _ P1).
  - injection H as <- <-. destruct (Hc _ _ _ Hcw) as (ev1 & E1 & P1 & _).
    exists ev1. split; [exact E1|]. unfold index_choice.
    rewrite (created_none _ P1). intros name Hname. discriminate Hname.
  - injection H as <- <-. destruct (Hc _ _ _ Hcw) as (ev1 & E1 & P1 & _).
    exists ev1. split; [exact E1|]. unfold index_choice.
    rewrite (created_none _ P1). intros name Hname. discriminate Hname.
Qed.

(** Asking for an index that does not exist, and returning it. *)
Lemma chooses_create name :
  Py.mem name existing = false ->
  chooses_index existing (pc_create_index env name ;; ret name).
Proof.
  intros Hnew w o w' H.
  exists [EvCreateIndex name 3072 "cosine" "aws" "us-east-1"].
  unfold pc_create_index, bind, emit, lift, raise, ret in H.
  destruct (create_index env name); injection H as <- <-;
    (split; [reflexivity|]); cbn; (split; [exact Hnew|]);
    intros name' Hname; [discriminate Hname | now injection Hname].
Qed.

Lemma no_create_print line : only (fun e => negb (is_create e)) (print line).
Proof. apply only_emit. reflexivity. Qed.

Lemma no_create_input prompt : only (fun e => negb (is_create e)) (input prompt).
Proof. apply only_input. reflexivity. Qed.

Lemma select_index_loop_chooses :
  forall fuel, chooses_index existing (select_index_loop fuel env existing).
Proof.
  induction fuel as [|fuel IH]; cbn [select_index_loop]; [apply chooses_diverge|].
  apply chooses_after; [apply no_create_input | intros choice].
  destruct (negb _).
  { apply chooses_after; [apply no_create_print | intros _; exact IH]. }
  destruct (_ =? "s").
  { apply chooses_after; [apply no_create_input | intros index_name].
    destruct (Py.mem _ existing) eqn:Hin; [apply chooses_ret; exact Hin|].
    apply chooses_after; [apply no_create_input | intros create_choice].
    destruct (_ =? "y").
    - apply chooses_after; [apply no_create_print | intros _].
      apply chooses_create. exact Hin.
    - apply chooses_after; [apply no_create_print | intros _; exact IH]. }
  destruct (_ =? "c"); [|exact IH].
  apply chooses_after; [apply no_create_input | intros index_name].
  destruct (Py.mem _ existing) eqn:Hin.
  - apply chooses_after; [apply no_create_print | intros _].
    apply chooses_ret. exact Hin.
  - eapply chooses_ext; [intros w; symmetry; apply bind_assoc|].
    apply chooses_after; [apply no_create_print | intros _].
    apply chooses_create. exact Hin.
Qed.

End IndexChoice.

(** [select_or_create_index] never asks the store for an index that
    exists and asks for at most one index.  When it asks for none, the name
    it returns is the name of an existing index; when it asks for one, that
    is the only name it returns.  This holds in every mode and however the
    call ends. *)
Theorem select_or_create_index_choice (env : Env) (provided_index : option string)
    (non_interactive : bool) (w : world) (o : outcome string) (w' : world) :
  select_or_create_index env provided_index non_interactive w = (o, w') ->
  exists events,
    trace w' = trace w ++ events
    /\ index_choice (list_indexes_names env) o events.
Proof.
  revert w o w'.
  change (chooses_index (list_indexes_names env)
            (select_or_create_index env provided_index non_interactive)).
  unfold select_or_create_index.
  set (existing := list_indexes_names env).
  assert (chooses_index existing
            (if non_interactive
             then (if negb (Py.mem "default_index" existing)
                   then print (fstr ["Creating default index '"; "default_index"; "'..."]) ;;
                        pc_create_index env "default_index"
                   else print (fstr ["Using existing default index: "; "default_index"])) ;;
                  ret "default_index"
             else emit (EvPrintIndexes "Existing indexes:" existing) ;;
                  (fun w => select_index_loop (S (List.length (stdin w))) env existing w)))
    as Hunprovided.
  { destruct non_interactive.
    - destruct (Py.mem "default_index" existing) eqn:Hin; cbn [negb].
      + apply chooses_after; [apply no_create_print | intros _].
        apply chooses_ret. exact Hin.
      + eapply chooses_ext; [intros w; symmetry; apply bind_assoc|].
        apply chooses_after; [apply no_create_print | intros _].
        apply chooses_create. exact Hin.
    - apply chooses_after; [apply only_emit; reflexivity | intros _].
      intros w o w' H. exact (select_index_loop_chooses env existing _ w o w' H). }
  destruct provided_index as [name|]; [|exact Hunprovided].
  destruct (Py.truthy name); [|exact Hunprovided].
  destruct (Py.mem name existing) eqn:Hin.
  - apply chooses_after; [apply no_create_print | intros _].
    apply chooses_ret. exact Hin.
  - apply chooses_after; [apply no_create_print | intros _].
    apply chooses_create. exact Hin.
Qed.

Lemma select_or_create_index_choice_witness :
  exists events,
    trace (snd (select_or_create_index sample_env (Some "fresh") true (initial_world [])))
    = events
    /\ created_indexes events = ["fresh"]
    /\ Py.mem "fresh" (list_indexes_names sample_env) = false.
Proof.
  destruct (select_or_create_index_choice sample_env (Some "fresh") true
              (initial_world []) _ _ eq_refl) as (events & Htrace & Hchoice).
  exists events. cbn [trace initial_world app] in Htrace.
  split; [exact Htrace|].
  rewrite <- Htrace. split; reflexivity.
Defined.

(** ** The index and the namespace of a run *)

Lemma targets_any index ns events :
  forallb (fun e => negb (is_target_call e)) events = true ->
  forallb (targets index ns) events = true.
Proof.
  induction events as [|e events IH]; [reflexivity|]. simpl. intros H.
  apply andb_prop in H. destruct H as [He H]. rewrite (IH H).
  destruct e; try reflexivity; discriminate He.
Qed.

Section Target.

Variable C : string -> string -> Prop.
Hypothesis inhabited : exists index ns, C index ns.

Lemma single_after {A B : Type} (Q : A -> Prop) (c : IO A) (k : A -> IO B) :
  only (fun e => negb (is_target_call e)) c ->
  returns_only Q c ->
  (forall a, Q a -> single_target C (k a)) ->
  single_target C (bind c k).
Proof.
  intros Hc HQ Hk w o w' H. unfold bind in H.
  destruct (c w) as [[a|e|] w1] eqn:Hcw.
  - destruct (Hc _ _ _ Hcw) as (ev1 & E1 & P1 & _).
    destruct (Hk a (HQ _ _ _ Hcw) _ _ _ H) as (ev2 & E2 & index & ns & HC & P2).
    exists (ev1 ++ ev2). rewrite E2, E1, <- app_assoc. split; [reflexivity|].
    exists index, ns. split; [exact HC|].
    now rewrite forallb_app, (targets_any index ns ev1 P1), P2.
  - injection H as <- <-. destruct (Hc _ _ _ Hcw) as (ev1 & E1 & P1 & _).
    destruct inhabited as (index & ns & HC).
    exists ev1. split; [exact E1|]. exists index, ns. split; [exact HC|].
    apply targets_any, P1.
  - injection H as <- <-. destruct (Hc _ _ _ Hcw) as (ev1 & E1 & P1 & _).
    destruct inhabited as (index & ns & HC).
    exists ev1. split; [exact E1|]. exists index, ns. split; [exact HC|].
    apply targets_any, P1.
Qed.

Lemma single_then {A B : Type} (c : IO A) (k : A -> IO B) :
  only (fun e => negb (is_target_call e)) c ->
  (forall a, single_target C (k a)) ->
  single_target C (bind c k).
Proof.
  intros Hc Hk. apply (single_after (fun _ => True)); auto.
  apply returns_any. auto.
Qed.

Lemma single_bind_ret {A B : Type} (a : A) (k : A -> IO B) :
  single_target C (k a) -> single_target C (bind (ret a) k).
Proof. intros Hk w o w' H. exact (Hk w o w' H). Qed.

Lemma single_only {A : Type} index ns (c : IO A) :
  C index ns -> only (targets index ns) c -> single_target C c.
Proof.
  intros HC Hc w o w' H. destruct (Hc _ _ _ H) as (events & E & P & _).
  exists events. split; [exact E|]. now exists index, ns.
Qed.

End Target.

Section Calm.

Variable p : event -> bool.
Variable env : Env.

(** Every event that carries no data, prompts included, passes [p]. *)
Hypothesis calm : forall e, is_data_call e = false -> p e = true.

Lemma calm_plain e : is_data_call e = false -> is_input e = false -> p e = true.
Proof. intros He _. exact (calm e He). Qed.

Lemma only_select_index_loop existing_indexes :
  forall fuel, only p (select_index_loop fuel env existing_indexes).
Proof.
  induction fuel as [|fuel IH]; cbn [select_index_loop]; unfold print, pc_create_index;
    only_auto.
Qed.

Lemma only_get_directory args : only p (get_directory env args).
Proof. unfold get_directory, sys_exit, print. only_auto. Qed.

Lemma only_select_index provided_index non_interactive :
  only p (select_or_create_index env provided_index non_interactive).
Proof.
  unfold select_or_create_index.
  assert (only p (fun w => select_index_loop (S (List.length (stdin w))) env
                             (list_indexes_names env) w)) as Hloop.
  { apply (only_state p (fun w0 => select_index_loop (S (List.length (stdin w0))) env
                                     (list_indexes_names env))).
    intros w0. apply only_select_index_loop. }
  unfold print, pc_create_index. only_auto.
Qed.

Lemma only_select_namespace provided_namespace non_interactive :
  only p (select_or_create_namespace provided_namespace non_interactive).
Proof. unfold select_or_create_namespace, print. only_auto. Qed.

Lemma only_initialize args : only p (initialize env args).
Proof.
  unfold initialize.
  apply only_bind; [apply only_load_config | intros [pinecone_key openai_key]].
  apply only_bind; [apply only_select_index | intros index_name].
  apply only_bind; [apply only_select_namespace | intros ns; apply only_ret].
Qed.

End Calm.

Lemma only_query_loop (p : event -> bool) env index namespace client args :
  (forall e, is_target_call e = false -> p e = true) ->
  (forall v top_k, p (EvQuery index (ns_of namespace) v top_k) = true) ->
  forall fuel, only p (query_loop fuel env index namespace client args).
Proof.
  intros Hp Hquery.
  induction fuel as [|fuel IH]; cbn [query_loop];
    unfold query_pinecone, embed_text, print; [apply only_diverge|].
  apply only_bind; [apply only_input, Hp; reflexivity | intros choice].
  destruct (_ =? "q").
  { apply only_bind; [apply only_input, Hp; reflexivity | intros user_query].
    apply only_bind.
    { apply only_bind.
      { apply only_bind; [apply only_emit, Hp; reflexivity | intros _; apply only_lift]. }
      intros embeddings. apply only_bind.
      { destruct embeddings; [apply only_raise | apply only_ret]. }
      intros query_embedding.
      apply only_bind; [apply only_emit, Hquery | intros _; apply only_lift]. }
    intros results.
    apply only_bind; [apply only_emit, Hp; reflexivity | intros _].
    apply only_bind; [|intros _; exact IH].
    apply only_for_each. intros m s. apply only_emit, Hp. reflexivity. }
  destruct (_ =? "e"); [apply only_emit, Hp; reflexivity|].
  apply only_bind; [apply only_emit, Hp; reflexivity | intros _; exact IH].
Qed.

(** The index and the namespace [initialize] returns when the command line
    settles them. *)
Lemma select_index_returns env provided_index non_interactive :
  returns_only
    (fun name =>
       non_interactive || provided provided_index = true ->
       name = match provided_index with
              | Some n => if Py.truthy n then n else "default_index"
              | None => "default_index"
              end)
    (select_or_create_index env provided_index non_interactive).
Proof.
  unfold select_or_create_index.
  destruct provided_index as [n|]; cbn [provided].
  - destruct (Py.truthy n).
    + destruct (Py.mem n _).
      * apply returns_then. intros _. apply returns_ret. reflexivity.
      * apply returns_then. intros _. apply returns_then. intros _.
        apply returns_ret. reflexivity.
    + destruct non_interactive.
      * apply returns_then. intros _. apply returns_ret. reflexivity.
      * apply returns_any. intros name H. discriminate H.
  - destruct non_interactive.
    + apply returns_then. intros _. apply returns_ret. reflexivity.
    + apply returns_any. intros name H. discriminate H.
Qed.

Lemma select_namespace_returns provided_namespace non_interactive :
  returns_only
    (fun namespace =>
       non_interactive
       || match provided_namespace with Some _ => true | None => false end = true ->
       ns_of namespace = match provided_namespace with
                         | Some ns => ns_of (Some ns)
                         | None => "default_namespace"
                         end)
    (select_or_create_namespace provided_namespace non_interactive).
Proof.
  unfold select_or_create_namespace.
  destruct provided_namespace as [ns|].
  - apply returns_then. intros _. apply returns_ret. reflexivity.
  - destruct non_interactive.
    + apply returns_then. intros _. apply returns_ret. reflexivity.
    + apply returns_any. intros name H. discriminate H.
Qed.


(** ** A write that fails *)

Lemma printed_app tr1 tr2 : printed (tr1 ++ tr2) = printed tr1 ++ printed tr2.
Proof.
  induction tr1 as [|e tr1 IH]; [reflexivity|]. destruct e; simpl; now rewrite IH.
Qed.

(** A loop without local variables whose passes succeed up to one that
    raises: the later passes are not run. *)
Lemma for_each_fails {X : Type} (body : X -> unit -> IO unit) (events : X -> list event)
    (done : list X) (x : X) (rest : list X) (e : exn) (last : list event) :
  (forall y, In y done ->
     forall w, body y tt w
               = (Ret tt, {| stdin := stdin w; trace := trace w ++ events y |})) ->
  (forall w, body x tt w = (Raise e, {| stdin := stdin w; trace := trace w ++ last |})) ->
  forall w, for_each (done ++ x :: rest) body tt w
            = (Raise e, {| stdin := stdin w;
                           trace := trace w ++ flat_map events done ++ last |}).
Proof.
  intros Hdone Hx. induction done as [|y done IH]; intros w; simpl.
  - unfold bind. now rewrite Hx.
  - unfold bind. rewrite (Hdone y (or_introl eq_refl)), IH.
    + cbn [stdin trace]. now rewrite <- !app_assoc.
    + intros y' Hy'. apply Hdone. now right.
Qed.

Lemma upsert_calls_pass_events vectors index ns b starts :
  upsert_calls (flat_map (pass_events vectors index ns b) starts)
  = map (fun i => Py.slice vectors i (i + b)) starts.
Proof. induction starts as [|i starts IH]; simpl; [reflexivity|]. now rewrite IH. Qed.

Lemma printed_pass_events vectors index ns b starts :
  printed (flat_map (pass_events vectors index ns b) starts)
  = map (fun i => fstr ["Upserted batch "; Py.str_of_int (i / b + 1); " of ";
                        Py.str_of_int ((Py.len vectors + b - 1) / b)]) starts.
Proof. induction starts as [|i starts IH]; simpl; [reflexivity|]. now rewrite IH. Qed.

Lemma seq_split_at (k n : nat) :
  (k < n)%nat -> seq 0 n = seq 0 k ++ k :: seq (S k) (n - S k).
Proof.
  intros Hk. replace n with (k + S (n - S k))%nat at 1 by lia.
  rewrite seq_app. reflexivity.
Qed.

(** A write that fails ends [upsert_data] with the exception of the store.
    The batches before it stay written, the failing batch was the last one
    sent, no later batch is attempted, and neither its progress line nor the
    closing line is printed. *)
Theorem upsert_data_write_failure (env : Env) (documents : list document)
    (index : string) (namespace : option string) (client : string) (args : Args)
    (embeddings : list embedding) (k : nat) (e : exception) (w : world) :
  embeddings_create env "text-embedding-3-large" (map document_text documents)
  = inr embeddings ->
  0 < batch_size_of args ->
  (k < window_count (vectors_of documents embeddings) (batch_size_of args))%nat ->
  (forall batch,
     In batch (windows_of (vectors_of documents embeddings) (batch_size_of args) k) ->
     index_upsert env index batch (ns_of namespace) = inr tt) ->
  index_upsert env index
    (Py.slice (vectors_of documents embeddings)
       (Z.of_nat k * batch_size_of args)
       (Z.of_nat k * batch_size_of args + batch_size_of args))
    (ns_of namespace) = inl e ->
  exists w',
    upsert_data env documents index namespace client args w = (Raise (Exc e), w')
    /\ stdin w' = stdin w
    /\ upsert_calls (trace w')
       = upsert_calls (trace w)
         ++ windows_of (vectors_of documents embeddings) (batch_size_of args) (S k)
    /\ printed (trace w')
       = printed (trace w)
         ++ map (progress_line
                   (Z.of_nat (window_count (vectors_of documents embeddings)
                                           (batch_size_of args))))
                (seq 0 k).
Proof.
  intros Hembed Hb Hk Hdone Hfail.
  set (vectors := vectors_of documents embeddings) in *.
  set (b := batch_size_of args) in *.
  set (start := fun j : nat => Z.of_nat j * b).
  eexists. split.
  - unfold upsert_data, embed_text, bind at 1 2, emit, lift.
    rewrite Hembed. unfold ret at 1. cbn [stdin trace].
    fold vectors b.
    unfold bind at 1. rewrite (range_slices vectors b Hb). unfold ret at 1.
    unfold bind at 1.
    rewrite (seq_split_at k _ Hk), map_app. cbn [map].
    rewrite (for_each_fails _ (pass_events vectors index (ns_of namespace) b)
               (map start (seq 0 k)) (start k) _ (Exc e)
               [EvUpsert index (Py.slice vectors (start k) (start k + b))
                         (ns_of namespace)]).
    + cbn [stdin trace]. reflexivity.
    + intros i Hi w0. apply in_map_iff in Hi. destruct Hi as (j & <- & Hj).
      unfold bind, emit, lift, print, emit. cbn [stdin trace].
      rewrite Hdone.
      * unfold ret. cbn [stdin trace]. rewrite <- app_assoc. reflexivity.
      * unfold windows_of. apply in_map_iff. exists j. split; [reflexivity | exact Hj].
    + intros w0. unfold bind, emit, lift. cbn [stdin trace].
      unfold start. rewrite Hfail. reflexivity.
  - cbn [stdin trace]. split; [reflexivity|]. split.
    + rewrite !upsert_calls_app, upsert_calls_pass_events. cbn [upsert_calls app].
      rewrite <- app_assoc. f_equal.
      unfold windows_of. rewrite seq_S, map_app, map_map. reflexivity.
    + rewrite !printed_app, printed_pass_events. cbn [printed app].
      rewrite !app_nil_r, map_map. f_equal.
      apply map_ext. intros j. unfold progress_line, start.
      rewrite Z.div_mul by lia.
      unfold vectors, b. rewrite window_count_Z by exact Hb. reflexivity.
Qed.

Lemma upsert_data_write_failure_witness :
  exists w',
    upsert_data refusing_env four_units "default_index" None "key"
      (args_with_batch_size (Some (Some 2))) (initial_world [])
    = (Raise (Exc (Exception "write refused")), w')
    /\ map (map vector_id) (upsert_calls (trace w')) = [["doc1"; "doc2"]; ["doc3"; "doc4"]]
    /\ printed (trace w') = ["Upserted batch 1 of 2"].
Proof.
  destruct (upsert_data_write_failure refusing_env four_units "default_index" None "key"
              (args_with_batch_size (Some (Some 2)))
              (map (fun _ => [0.5%float]) four_units) 1
              (Exception "write refused") (initial_world []))
    as (w' & Hrun & _ & Hcalls & Hprinted).
  - reflexivity.
  - reflexivity.
  - vm_compute. lia.
  - intros batch Hin. cbn in Hin. destruct Hin as [<- | []]. reflexivity.
  - reflexivity.
  - exists w'. split; [exact Hrun|]. rewrite Hcalls, Hprinted. split; reflexivity.
Defined.

(** ** The query loop *)

Lemma for_each_emit {X : Type} (f : X -> event) (l : list X) (w : world) :
  for_each l (fun x _ => emit (f x)) tt w
  = (Ret tt, {| stdin := stdin w; trace := trace w ++ map f l |}).
Proof.
  revert w. induction l as [|x l IH]; intros w; simpl.
  - unfold ret. now rewrite app_nil_r, world_eta.
  - unfold bind, emit. rewrite IH. cbn [stdin trace]. now rewrite <- app_assoc.
Qed.

(** A session at the query prompt, in which every round asks one query and
    the last answer ends the loop.  The answers at the prompt are read
    without their surrounding blanks and whatever their case.  Each round
    embeds the trimmed query alone, queries the index in the resolved
    namespace for the 3 nearest vectors of the first vector answered, and
    prints the matches in the order the store gave them; the loop then
    returns, having read the lines of the session and no other. *)
Theorem query_loop_session (env : Env) (index : string) (namespace : option string)
    (client : string) (args : Args) (vec : string -> embedding)
    (answer : string -> list query_match) (rounds : list (string * string))
    (bye : string) :
  (forall choice query, In (choice, query) rounds ->
     Py.lower (Py.strip choice) = "q"
     /\ (exists others,
           embeddings_create env "text-embedding-3-large" [Py.strip query]
           = inr (vec query :: others))
     /\ index_query env index (ns_of namespace) (vec query) 3 = inr (answer query)) ->
  Py.lower (Py.strip bye) = "e" ->
  forall (fuel : nat) (w : world) (rest : list string),
    (List.length rounds < fuel)%nat ->
    stdin w = session rounds bye ++ rest ->
    query_loop fuel env index namespace client args w
    = (Ret tt,
       {| stdin := rest;
          trace := trace w
                   ++ flat_map (fun '(_, query) =>
                                  round_events index (ns_of namespace) query (vec query)
                                               (answer query)) rounds
                   ++ [EvInput "Would you like to (q)uery the index or (e)xit? [q/e]: ";
                       EvPrint "Exiting. Goodbye!"] |}).
Proof.
  intros Hrounds Hbye.
  induction rounds as [|[choice query] rounds IH]; intros fuel w rest Hfuel Hstdin.
  - destruct fuel as [|fuel]; [simpl in Hfuel; lia|].
    cbn [session flat_map app] in Hstdin.
    cbn [query_loop]. unfold bind at 1, input. rewrite Hstdin, Hbye.
    cbn [String.eqb Ascii.eqb Bool.eqb]. unfold print, emit. cbn [stdin trace flat_map app].
    now rewrite <- app_assoc.
  - destruct fuel as [|fuel]; [simpl in Hfuel; lia|].
    destruct (Hrounds choice query (or_introl eq_refl)) as (Hchoice & [others Hvec] & Hanswer).
    cbn [session flat_map app] in Hstdin. rewrite <- app_assoc in Hstdin.
    cbn [app] in Hstdin.
    cbn [query_loop]. unfold bind at 1, input at 1. rewrite Hstdin, Hchoice.
    cbn [String.eqb Ascii.eqb Bool.eqb].
    unfold bind at 1, input at 1. cbn [stdin trace].
    unfold bind at 1, query_pinecone, embed_text, bind at 1 2, emit at 1.
    cbn [stdin trace]. rewrite Hvec. unfold lift at 1, ret at 1.
    unfold bind at 1, ret at 1. unfold bind at 1, emit at 1. cbn [stdin trace].
    rewrite Hanswer. unfold lift at 1, ret at 1.
    unfold bind at 1, print at 1, emit at 1. cbn [stdin trace].
    unfold bind at 1. rewrite for_each_emit. cbn [stdin trace].
    rewrite (IH (fun c q Hin => Hrounds c q (or_intror Hin)) fuel _ rest).
    + cbn [stdin trace flat_map round_events]. rewrite <- !app_assoc. reflexivity.
    + simpl in Hfuel. lia.
    + cbn [stdin]. unfold session. now rewrite <- app_assoc.
Qed.

Lemma query_loop_session_witness :
  query_loop 3 answering_env "default_index" None "key" (argparse_Namespace (sample_cmd "docs"))
    (initial_world ["  Q "; " what is alpha? "; "E"; "unread"])
  = (Ret tt,
     {| stdin := ["unread"];
        trace :=
          [EvInput "Would you like to (q)uery the index or (e)xit? [q/e]: ";
           EvInput "Enter your query: ";
           EvEmbed "text-embedding-3-large" ["what is alpha?"];
           EvQuery "default_index" "" [0.5%float] 3;
           EvPrint (String.append newline "Top Results:");
           EvPrintMatch "alpha" 0.75%float;
           EvInput "Would you like to (q)uery the index or (e)xit? [q/e]: ";
           EvPrint "Exiting. Goodbye!"] |}).
Proof.
  apply (query_loop_session answering_env "default_index" None "key"
           (argparse_Namespace (sample_cmd "docs"))
           (fun _ => [0.5%float])
           (fun _ => [{| match_text := "alpha"; match_score := 0.75%float |}])
           [("  Q ", " what is alpha? ")] "E").
  - intros choice query [Hin | []]. injection Hin as <- <-.
    split; [reflexivity|]. split; [exists []; reflexivity | reflexivity].
  - reflexivity.
  - simpl. lia.
  - reflexivity.
Defined.

(** ** The parameters of the remote calls *)

Section FixedParameters.

Variable env : Env.

Lemma select_index_loop_parameters existing_indexes :
  forall fuel, only has_fixed_parameters (select_index_loop fuel env existing_indexes).
Proof.
  induction fuel as [|fuel IH]; cbn [select_index_loop]; unfold print, pc_create_index;
    only_auto.
Qed.

Lemma initialize_parameters args : only has_fixed_parameters (initialize env args).
Proof.
  unfold initialize.
  apply only_bind; [apply only_load_config | intros [pinecone_key openai_key]].
  apply only_bind.
  { unfold select_or_create_index.
    assert (only has_fixed_parameters
              (fun w => select_index_loop (S (List.length (stdin w))) env
                          (list_indexes_names env) w)) as Hloop.
    { apply (only_state _ (fun w0 => select_index_loop (S (List.length (stdin w0))) env
                                       (list_indexes_names env))).
      intros w0. apply select_index_loop_parameters. }
    unfold print, pc_create_index. only_auto. }
  intros index_name. apply only_bind; [|intros ns; apply only_ret].
  unfold select_or_create_namespace, print. only_auto.
Qed.

Lemma query_loop_parameters index namespace client args :
  forall fuel,
    only has_fixed_parameters (query_loop fuel env index namespace client args).
Proof.
  induction fuel as [|fuel IH]; cbn [query_loop];
    unfold query_pinecone, embed_text, print; [apply only_diverge|].
  apply only_bind; [apply only_input; reflexivity | intros choice].
  destruct (_ =? "q").
  { apply only_bind; [apply only_input; reflexivity | intros user_query].
    apply only_bind.
    { apply only_bind.
      { apply only_bind; [apply only_emit; reflexivity | intros _; apply only_lift]. }
      intros embeddings. apply only_bind.
      { destruct embeddings; [apply only_raise | apply only_ret]. }
      intros query_embedding.
      apply only_bind; [apply only_emit; reflexivity | intros _; apply only_lift]. }
    intros results.
    apply only_bind; [apply only_emit; reflexivity | intros _].
    apply only_bind; [|intros _; exact IH].
    apply only_for_each. intros m s. apply only_emit. reflexivity. }
  destruct (_ =? "e"); [apply only_emit; reflexivity|].
  apply only_bind; [apply only_emit; reflexivity | intros _; exact IH].
Qed.

End FixedParameters.


(** ** The closing line of a write *)



(** ** What a run reaches *)

(** No run calls the embedding provider or the vector store, and none asks
    for an index to be created: the traversal returns no unit, so [main]
    never gets to [initialize], [upsert_data] or the query loop. *)
Theorem run_reaches_no_service (env : Env) (argv : Argv) (inputs : list string) :
  existsb is_remote_call (trace (snd (run env argv inputs))) = false.
Proof.
  set (p := fun e => negb (is_remote_call e)).
  assert (only p (main env argv)) as Hmain.
  { unfold main.
    apply only_bind.
    { destruct argv; cbn [parse_args]; [apply only_ret | ..];
        (apply only_bind; [apply only_emit; reflexivity | intros _; apply only_raise]). }
    intros args.
    apply only_bind; [unfold get_directory, sys_exit, print; only_auto | intros directory].
    apply only_bind; [apply only_emit; reflexivity | intros _].
    apply (only_bind_returns _ (fun documents => documents = []));
      [|apply process_directory_returns|].
    { destruct (process_directory_quiet env directory) as [[_ H] | [_ H]];
        (eapply only_quiet; [reflexivity | exact H]). }
    intros documents ->.
    apply only_bind; [apply only_emit; reflexivity | intros _; apply only_raise]. }
  unfold run. destruct (main env argv (initial_world inputs)) as [o w'] eqn:Hrun.
  destruct (Hmain _ _ _ Hrun) as (events & Htrace & Hp & _).
  cbn [snd initial_world trace app] in *. rewrite Htrace.
  apply forallb_negb_existsb. exact Hp.
Qed.
